(** * CampusPay smart contracts: a shallow embedding and its properties

    The four ARC4 contracts of the repository (payment, expense split,
    fundraising, event ticketing) are embedded as functions in a small
    state-and-failure monad over the contract's box storage and global
    state.  Every inner transaction a method submits is logged together
    with the storage as it stood at the moment of submission, so that the
    order of storage writes and outbound transfers can be stated. *)

From Stdlib Require Import ZArith Lia String.
From stdpp Require Import gmap list fin_maps list_numbers.

Local Open Scope string_scope.
Local Open Scope list_scope.
Local Open Scope Z_scope.

(** ** The AVM as the contracts see it *)

(** An account is its 32-byte public key, read as a number. *)
Definition Account : Type := N.

(** [UInt64] values are integers of [0, 2^64); the AVM aborts the call on
    overflow, underflow and division by zero instead of wrapping. *)
Definition MAX_UINT64 : Z := 18446744073709551615.

Inductive Failure : Type :=
| AssertFailed (msg : string)
| ArithPanic.

Inductive Res (A : Type) : Type :=
| Ok (a : A)
| Abort (f : Failure).
Arguments Ok {A} a.
Arguments Abort {A} f.

(** Inner transactions; every one of them is submitted with [fee = 0]. *)
Inductive InnerTxn : Type :=
| Payment (receiver : Account) (amount : Z)
| AssetConfig (asset_name unit_name : string) (total decimals : Z)
    (default_frozen : bool) (manager reserve freeze clawback : Account)
| AssetTransfer (xfer_asset : Z) (asset_receiver : Account) (asset_amount : Z)
| AssetFreeze (freeze_asset : Z) (freeze_account : Account) (frozen : bool).

(** The grouped payment transaction that accompanies a call. *)
Record PaymentTxn : Type := mkPayment {
  pay_receiver : Account;
  pay_amount : Z
}.

(** [Txn.sender] and the fields of [Global] a method reads. *)
Record Ctx : Type := mkCtx {
  txn_sender : Account;
  current_application_address : Account;
  creator_address : Account;
  latest_timestamp : Z
}.

Section Machine.
Context {S : Type}.

(** The contract's storage, the inner transactions submitted so far (each
    with the storage at submission time) and the ledger's asset counter. *)
Record World : Type := mkWorld {
  store : S;
  itxns : list (S * InnerTxn);
  asset_ctr : Z
}.

Definition M (A : Type) : Type := World -> Res (A * World).

Definition ret {A} (a : A) : M A := fun w => Ok (a, w).

Definition bind {A B} (m : M A) (k : A -> M B) : M B :=
  fun w => match m w with
           | Ok (a, w') => k a w'
           | Abort f => Abort f
           end.

Definition assert_ (b : bool) (msg : string) : M unit :=
  fun w => if b then Ok (tt, w) else Abort (AssertFailed msg).

Definition gets {A} (f : S -> A) : M A := fun w => Ok (f (store w), w).

Definition modify (f : S -> S) : M unit :=
  fun w => Ok (tt, mkWorld (f (store w)) (itxns w) (asset_ctr w)).

Definition lift {A} (r : Res A) : M A :=
  fun w => match r with Ok a => Ok (a, w) | Abort f => Abort f end.

(** [itxn.X(...).submit()] *)
Definition submit (t : InnerTxn) : M unit :=
  fun w => Ok (tt, mkWorld (store w) (itxns w ++ [(store w, t)]) (asset_ctr w)).

(** [itxn.AssetConfig(...).submit()] and its [created_asset.id].  The
    ledger that mints the asset is outside the repository; all that is
    used of it is that a mint yields a new globally-unique unit, which the
    model gets by drawing identifiers from a counter of the ledger. *)
Definition submit_asset_config (t : InnerTxn) : M Z :=
  fun w => Ok (asset_ctr w,
               mkWorld (store w) (itxns w ++ [(store w, t)]) (asset_ctr w + 1)).
End Machine.
Arguments World S : clear implicits.
Arguments M S A : clear implicits.

Notation "'let*' x ':=' c 'in' k" := (bind c (fun x => k))
  (at level 10, x name, c at level 100, k at level 200).
Notation "c '>>' k" := (bind c (fun _ => k))
  (at level 100, k at level 200, right associativity).

(** AVM arithmetic on [UInt64]. *)
Definition uadd (a b : Z) : Res Z :=
  if a + b <=? MAX_UINT64 then Ok (a + b) else Abort ArithPanic.
Definition usub (a b : Z) : Res Z :=
  if b <=? a then Ok (a - b) else Abort ArithPanic.
Definition umul (a b : Z) : Res Z :=
  if a * b <=? MAX_UINT64 then Ok (a * b) else Abort ArithPanic.
Definition udiv (a b : Z) : Res Z :=
  if b =? 0 then Abort ArithPanic else Ok (a / b).

(** A failed call aborts its whole atomic group: the world is unchanged. *)
Definition commit {S A} (m : M S A) (w : World S) : World S :=
  match m w with
  | Ok (_, w') => w'
  | Abort _ => w
  end.

Definition succeeds {S A} (m : M S A) (w : World S) : Prop :=
  exists a w', m w = Ok (a, w').

(** The payments among a log of inner transactions. *)
Definition paid_amount (t : InnerTxn) : Z :=
  match t with
  | Payment _ a => a
  | _ => 0
  end.

Definition total_paid {S} (l : list (S * InnerTxn)) : Z :=
  foldr (fun e acc => paid_amount (snd e) + acc) 0 l.

(** Sum of the values of a box map. *)
Definition map_sum `{Countable K} (m : gmap K Z) : Z :=
  map_fold (fun _ v acc => v + acc) 0 m.

(** ** InstaPay: the payment contract *)
Module Payment.

Record Store : Type := mkStore {
  balances : gmap Account Z;
  campus_verified : gmap Account bool;
  campus_id : gmap Account string;
  total_volume : Z;
  total_transactions : Z;
  active_users : Z
}.

Definition init : Store := mkStore ∅ ∅ ∅ 0 0 0.

Definition set_balances (f : gmap Account Z -> gmap Account Z) (s : Store) : Store :=
  mkStore (f (balances s)) (campus_verified s) (campus_id s)
          (total_volume s) (total_transactions s) (active_users s).
Definition set_total_volume (v : Z) (s : Store) : Store :=
  mkStore (balances s) (campus_verified s) (campus_id s)
          v (total_transactions s) (active_users s).
Definition set_total_transactions (v : Z) (s : Store) : Store :=
  mkStore (balances s) (campus_verified s) (campus_id s)
          (total_volume s) v (active_users s).
Definition set_active_users (v : Z) (s : Store) : Store :=
  mkStore (balances s) (campus_verified s) (campus_id s)
          (total_volume s) (total_transactions s) v.
Definition set_campus (user : Account) (campus : string) (s : Store) : Store :=
  mkStore (balances s) (<[user := true]> (campus_verified s))
          (<[user := campus]> (campus_id s))
          (total_volume s) (total_transactions s) (active_users s).

(** [self.balances.get(a, default=UInt64(0))] *)
Definition balance_of (a : Account) (s : Store) : Z :=
  default 0 (balances s !! a).

(** [self.active_users += UInt64(1)] *)
Definition bump_active_users : M Store unit :=
  let* n := gets active_users in
  let* n' := lift (uadd n 1) in
  modify (set_active_users n').

(** [self.total_transactions += UInt64(1)] *)
Definition bump_total_transactions : M Store unit :=
  let* n := gets total_transactions in
  let* n' := lift (uadd n 1) in
  modify (set_total_transactions n').

Definition deposit (ctx : Ctx) (payment : PaymentTxn) : M Store unit :=
  assert_ (pay_receiver payment =? current_application_address ctx)%N
          "Payment must be to app" >>
  assert_ (0 <? pay_amount payment) "Amount must be positive" >>
  let sender := txn_sender ctx in
  let* current_balance := gets (balance_of sender) in
  let* new_balance := lift (uadd current_balance (pay_amount payment)) in
  modify (set_balances <[sender := new_balance]>) >>
  (if current_balance =? 0 then bump_active_users else ret tt) >>
  let* volume := gets total_volume in
  let* volume' := lift (uadd volume (pay_amount payment)) in
  modify (set_total_volume volume') >>
  bump_total_transactions.

Definition send_money (ctx : Ctx) (recipient : Account) (amount : Z)
    (note : string) : M Store Z :=
  let sender := txn_sender ctx in
  let* sender_balance := gets (balance_of sender) in
  assert_ (amount <=? sender_balance) "Insufficient balance" >>
  assert_ (0 <? amount) "Amount must be positive" >>
  let* debited := lift (usub sender_balance amount) in
  modify (set_balances <[sender := debited]>) >>
  let* recipient_balance := gets (balance_of recipient) in
  let* credited := lift (uadd recipient_balance amount) in
  modify (set_balances <[recipient := credited]>) >>
  (if recipient_balance =? 0 then bump_active_users else ret tt) >>
  bump_total_transactions >>
  gets total_transactions.

Definition withdraw (ctx : Ctx) (amount : Z) : M Store unit :=
  let sender := txn_sender ctx in
  let* sender_balance := gets (balance_of sender) in
  assert_ (amount <=? sender_balance) "Insufficient balance" >>
  assert_ (0 <? amount) "Amount must be positive" >>
  let* debited := lift (usub sender_balance amount) in
  modify (set_balances <[sender := debited]>) >>
  submit (Payment sender amount).

Definition verify_campus (ctx : Ctx) (user : Account) (campus : string)
    : M Store bool :=
  assert_ (txn_sender ctx =? creator_address ctx)%N "Only creator can verify" >>
  modify (set_campus user campus) >>
  ret true.

Definition get_balance (user : Account) : M Store Z := gets (balance_of user).

(** The calls of the balance ledger. *)
Inductive Call : Type :=
| Deposit (ctx : Ctx) (payment : PaymentTxn)
| SendMoney (ctx : Ctx) (recipient : Account) (amount : Z) (note : string)
| Withdraw (ctx : Ctx) (amount : Z).

Definition exec (c : Call) : M Store unit :=
  match c with
  | Deposit ctx p => deposit ctx p
  | SendMoney ctx r a n => send_money ctx r a n >> ret tt
  | Withdraw ctx a => withdraw ctx a
  end.

(** Value that enters the program's custody with a call: the grouped
    payment of a deposit that goes through. *)
Definition inbound (c : Call) (w : World Store) : Z :=
  match c, exec c w with
  | Deposit _ p, Ok _ => pay_amount p
  | _, _ => 0
  end.

(** Runs a sequence of calls; returns the final world and the total
    value deposited along the way. *)
Fixpoint run (cs : list Call) (w : World Store) (deposited : Z)
    : World Store * Z :=
  match cs with
  | [] => (w, deposited)
  | c :: cs' => run cs' (commit (exec c) w) (deposited + inbound c w)
  end.

Definition start : World Store := mkWorld init [] 0.

(** *** Invariants, accounting and sample runs *)

(** No balance is negative. *)
Definition nonneg (s : Store) : Prop :=
  forall a v, balances s !! a = Some v -> 0 <= v.

(** The balances are covered by what was ever deposited, which the
    volume counter bounds within [UInt64]. *)
Definition solvent (s : Store) : Prop :=
  nonneg s /\
  map_sum (balances s) <= total_volume s /\
  total_volume s <= MAX_UINT64.

(** The accounting of a run: the balances add up to the deposits received
    minus the withdrawals paid out. *)
Definition balanced (w : World Store) (deposited : Z) : Prop :=
  nonneg (store w) /\
  map_sum (balances (store w)) = deposited - total_paid (itxns w).

(** A ledger in which account 1 has deposited ten units. *)
Definition alice : Ctx := mkCtx 1%N 99%N 7%N 1000.

Definition funded_ledger : World Store :=
  fst (run [Deposit alice (mkPayment 99%N 10)] start 0).

(** *** Read-only methods and counters of a run *)

(** [self.campus_verified.get(user, default=arc4.Bool(False))] *)
Definition is_verified (user : Account) : M Store bool :=
  gets (fun s => default false (campus_verified s !! user)).

Definition get_stats : M Store (Z * Z * Z) :=
  gets (fun s => (total_volume s, total_transactions s, active_users s)).

(** One for a call that bumps [total_transactions]: a deposit or a transfer
    that goes through. *)
Definition counted (c : Call) (w : World Store) : Z :=
  match c, exec c w with
  | Withdraw _ _, _ => 0
  | _, Ok _ => 1
  | _, Abort _ => 0
  end.

Fixpoint transactions (cs : list Call) (w : World Store) : Z :=
  match cs with
  | [] => 0
  | c :: cs' => counted c w + transactions cs' (commit (exec c) w)
  end.

End Payment.

(** [assert self.box.maybe(key)[1], msg] followed by [self.box[key]] *)
Definition box_get {S A} (read : S -> option A) (msg : string) : M S A :=
  let* o := gets read in
  match o with
  | Some v => ret v
  | None => fun _ => Abort (AssertFailed msg)
  end.

(** ** SmartSplit: the expense split contract *)
Module Expense.

Record ExpenseGroup : Type := mkGroup {
  creator : Account;
  total_amount : Z;
  num_members : Z;
  total_contributed : Z;
  settled : bool;
  deadline : Z;
  penalty_rate : Z
}.

Record Store : Type := mkStore {
  groups : gmap Z ExpenseGroup;
  group_members : gmap (Z * Z) Account;
  contributions : gmap (Z * Account) Z;
  next_group_id : Z;
  total_groups : Z;
  total_split : Z
}.

Definition init : Store := mkStore ∅ ∅ ∅ 0 0 0.

Definition set_groups (f : gmap Z ExpenseGroup -> gmap Z ExpenseGroup)
    (s : Store) : Store :=
  mkStore (f (groups s)) (group_members s) (contributions s)
          (next_group_id s) (total_groups s) (total_split s).
Definition set_contributions
    (f : gmap (Z * Account) Z -> gmap (Z * Account) Z) (s : Store) : Store :=
  mkStore (groups s) (group_members s) (f (contributions s))
          (next_group_id s) (total_groups s) (total_split s).
Definition set_next_group_id (v : Z) (s : Store) : Store :=
  mkStore (groups s) (group_members s) (contributions s)
          v (total_groups s) (total_split s).
Definition set_total_groups (v : Z) (s : Store) : Store :=
  mkStore (groups s) (group_members s) (contributions s)
          (next_group_id s) v (total_split s).
Definition set_total_split (v : Z) (s : Store) : Store :=
  mkStore (groups s) (group_members s) (contributions s)
          (next_group_id s) (total_groups s) v.

(** [group.total_contributed = ...] and [group.settled = ...] on the
    local copy of the record. *)
Definition with_total_contributed (v : Z) (g : ExpenseGroup) : ExpenseGroup :=
  mkGroup (creator g) (total_amount g) (num_members g) v (settled g)
          (deadline g) (penalty_rate g).
Definition with_settled (b : bool) (g : ExpenseGroup) : ExpenseGroup :=
  mkGroup (creator g) (total_amount g) (num_members g) (total_contributed g) b
          (deadline g) (penalty_rate g).

(** [self.contributions.maybe(key)], read as zero when the box is absent. *)
Definition contribution_of (key : Z * Account) (s : Store) : Z :=
  default 0 (contributions s !! key).

Definition create_group (ctx : Ctx) (total_amount num_members deadline
    penalty_rate : Z) (description : string) : M Store Z :=
  assert_ (2 <=? num_members) "Need at least 2 members" >>
  assert_ (num_members <=? 50) "Max 50 members per group" >>
  assert_ (0 <? total_amount) "Amount must be positive" >>
  assert_ (latest_timestamp ctx <? deadline) "Deadline must be in future" >>
  assert_ (penalty_rate <=? 1000) "Max 10% penalty" >>
  let* group_id := gets next_group_id in
  let* next := lift (uadd group_id 1) in
  modify (set_next_group_id next) >>
  let group := mkGroup (txn_sender ctx) total_amount num_members 0 false
                       deadline penalty_rate in
  modify (set_groups <[group_id := group]>) >>
  let* n := gets total_groups in
  let* n' := lift (uadd n 1) in
  modify (set_total_groups n') >>
  ret group_id.

Definition contribute (ctx : Ctx) (group_id : Z) (payment : PaymentTxn)
    : M Store unit :=
  let* group := box_get (fun s => groups s !! group_id) "Group not found" in
  assert_ (negb (settled group)) "Group already settled" >>
  assert_ (pay_receiver payment =? current_application_address ctx)%N
          "Pay to app" >>
  let* expected_share := lift (udiv (total_amount group) (num_members group)) in
  assert_ (expected_share <=? pay_amount payment) "Insufficient payment" >>
  let sender_key := (group_id, txn_sender ctx) in
  let* current := gets (contribution_of sender_key) in
  let* updated := lift (uadd current (pay_amount payment)) in
  modify (set_contributions <[sender_key := updated]>) >>
  let* new_total := lift (uadd (total_contributed group) (pay_amount payment)) in
  modify (set_groups <[group_id := with_total_contributed new_total group]>).

Definition settle_group (ctx : Ctx) (group_id : Z) : M Store unit :=
  let* group := box_get (fun s => groups s !! group_id) "Group not found" in
  assert_ (txn_sender ctx =? creator group)%N "Only creator can settle" >>
  assert_ (total_amount group <=? total_contributed group) "Not fully funded" >>
  assert_ (negb (settled group)) "Already settled" >>
  let group := with_settled true group in
  modify (set_groups <[group_id := group]>) >>
  submit (Payment (creator group) (total_amount group)) >>
  let* split := gets total_split in
  let* split' := lift (uadd split (total_amount group)) in
  modify (set_total_split split').

Definition get_contribution (group_id : Z) (member : Account) : M Store Z :=
  gets (contribution_of (group_id, member)).

Inductive Call : Type :=
| CreateGroup (ctx : Ctx) (total_amount num_members deadline penalty_rate : Z)
    (description : string)
| Contribute (ctx : Ctx) (group_id : Z) (payment : PaymentTxn)
| SettleGroup (ctx : Ctx) (group_id : Z).

Definition exec (c : Call) : M Store unit :=
  match c with
  | CreateGroup ctx t n d p descr => create_group ctx t n d p descr >> ret tt
  | Contribute ctx g p => contribute ctx g p
  | SettleGroup ctx g => settle_group ctx g
  end.

Definition run (cs : list Call) (w : World Store) : World Store :=
  foldl (fun w c => commit (exec c) w) w cs.

Definition start : World Store := mkWorld init [] 0.

(** *** Invariants, accounting and sample runs *)

(** Group identifiers are allocated below [next_group_id], and every
    stored group has the member count [create_group] accepted. *)
Definition wf (s : Store) : Prop :=
  forall id g, groups s !! id = Some g ->
    id < next_group_id s /\ 2 <= num_members g <= 50.

(** The scenario of the specification: a bill of 100 split four ways,
    each of four members paying the share of 25 to a group created by
    account 1. *)
Definition member (a : Account) : Ctx := mkCtx a 99%N 7%N 1000.

Definition share : PaymentTxn := mkPayment 99%N 25.

Definition split_bill : list Call :=
  [CreateGroup (member 1%N) 100 4 2000 0 "Mess bill January";
   Contribute (member 2%N) 0 share; Contribute (member 3%N) 0 share;
   Contribute (member 4%N) 0 share; Contribute (member 5%N) 0 share].

Definition funded_group : World Store := run split_bill start.

(** *** Read-only methods and the accounting of a run *)

Definition get_group_info (group_id : Z)
    : M Store (Account * Z * Z * Z * bool) :=
  let* group := box_get (fun s => groups s !! group_id) "Group not found" in
  ret (creator group, total_amount group, num_members group,
       total_contributed group, settled group).

Definition get_platform_stats : M Store (Z * Z) :=
  gets (fun s => (total_groups s, total_split s)).

(** Value that enters the escrow with a call: the grouped payment of a
    contribution that goes through. *)
Definition received (c : Call) (w : World Store) : Z :=
  match c, exec c w with
  | Contribute _ _ p, Ok _ => pay_amount p
  | _, _ => 0
  end.

Fixpoint contributed (cs : list Call) (w : World Store) : Z :=
  match cs with
  | [] => 0
  | c :: cs' => received c w + contributed cs' (commit (exec c) w)
  end.

(** What the escrow still holds for a group: its contributions, less the
    total once that has been paid to the creator. *)
Definition in_escrow (g : ExpenseGroup) : Z :=
  total_contributed g - (if settled g then total_amount g else 0).

(** The contribution boxes of one group. *)
Definition group_contributions (id : Z) (s : Store) : gmap (Z * Account) Z :=
  filter (fun kv => kv.1.1 = id) (contributions s).

(** Every stored group has a non-negative total, a non-negative sum of
    contributions, and is settled only if the contributions cover the total;
    contribution boxes exist only for stored groups. *)
Definition sound (s : Store) : Prop :=
  wf s /\
  (forall id g, groups s !! id = Some g ->
     0 <= total_amount g /\ 0 <= total_contributed g /\
     (settled g = true -> total_amount g <= total_contributed g)) /\
  (forall id a v, contributions s !! (id, a) = Some v -> is_Some (groups s !! id)).

(** The contributions recorded for a group add up to its total. *)
Definition tallied (s : Store) : Prop :=
  forall id g, groups s !! id = Some g ->
    map_sum (group_contributions id s) = total_contributed g.

End Expense.

(** ** ClearFund: the fundraising contract *)
Module Fundraise.

Record Campaign : Type := mkCampaign {
  creator : Account;
  goal : Z;
  raised : Z;
  num_milestones : Z;
  milestones_released : Z;
  deadline : Z;
  active : bool;
  fully_funded : bool
}.

Record Store : Type := mkStore {
  campaigns : gmap Z Campaign;
  donations : gmap (Z * Account) Z;
  next_campaign_id : Z;
  total_campaigns : Z;
  total_raised : Z
}.

Definition init : Store := mkStore ∅ ∅ 0 0 0.

Definition set_campaigns (f : gmap Z Campaign -> gmap Z Campaign)
    (s : Store) : Store :=
  mkStore (f (campaigns s)) (donations s) (next_campaign_id s)
          (total_campaigns s) (total_raised s).
Definition set_donations (f : gmap (Z * Account) Z -> gmap (Z * Account) Z)
    (s : Store) : Store :=
  mkStore (campaigns s) (f (donations s)) (next_campaign_id s)
          (total_campaigns s) (total_raised s).
Definition set_next_campaign_id (v : Z) (s : Store) : Store :=
  mkStore (campaigns s) (donations s) v (total_campaigns s) (total_raised s).
Definition set_total_campaigns (v : Z) (s : Store) : Store :=
  mkStore (campaigns s) (donations s) (next_campaign_id s) v (total_raised s).
Definition set_total_raised (v : Z) (s : Store) : Store :=
  mkStore (campaigns s) (donations s) (next_campaign_id s)
          (total_campaigns s) v.

Definition with_raised (v : Z) (c : Campaign) : Campaign :=
  mkCampaign (creator c) (goal c) v (num_milestones c)
             (milestones_released c) (deadline c) (active c) (fully_funded c).
Definition with_fully_funded (b : bool) (c : Campaign) : Campaign :=
  mkCampaign (creator c) (goal c) (raised c) (num_milestones c)
             (milestones_released c) (deadline c) (active c) b.
Definition with_milestones_released (v : Z) (c : Campaign) : Campaign :=
  mkCampaign (creator c) (goal c) (raised c) (num_milestones c)
             v (deadline c) (active c) (fully_funded c).
Definition with_active (b : bool) (c : Campaign) : Campaign :=
  mkCampaign (creator c) (goal c) (raised c) (num_milestones c)
             (milestones_released c) (deadline c) b (fully_funded c).

Definition donation_of (key : Z * Account) (s : Store) : Z :=
  default 0 (donations s !! key).

Definition create_campaign (ctx : Ctx) (goal num_milestones deadline : Z)
    (title description : string) : M Store Z :=
  assert_ (0 <? goal) "Goal must be positive" >>
  assert_ (1 <=? num_milestones) "At least 1 milestone" >>
  assert_ (num_milestones <=? 10) "Max 10 milestones" >>
  assert_ (latest_timestamp ctx <? deadline) "Deadline must be in future" >>
  let* campaign_id := gets next_campaign_id in
  let* next := lift (uadd campaign_id 1) in
  modify (set_next_campaign_id next) >>
  let campaign := mkCampaign (txn_sender ctx) goal 0 num_milestones 0
                             deadline true false in
  modify (set_campaigns <[campaign_id := campaign]>) >>
  let* n := gets total_campaigns in
  let* n' := lift (uadd n 1) in
  modify (set_total_campaigns n') >>
  ret campaign_id.

Definition donate (ctx : Ctx) (campaign_id : Z) (payment : PaymentTxn)
    : M Store unit :=
  let* campaign :=
    box_get (fun s => campaigns s !! campaign_id) "Campaign not found" in
  assert_ (active campaign) "Campaign not active" >>
  assert_ (pay_receiver payment =? current_application_address ctx)%N
          "Pay to app" >>
  assert_ (0 <? pay_amount payment) "Amount must be positive" >>
  let donor_key := (campaign_id, txn_sender ctx) in
  let* current_donation := gets (donation_of donor_key) in
  let* updated := lift (uadd current_donation (pay_amount payment)) in
  modify (set_donations <[donor_key := updated]>) >>
  let* new_raised := lift (uadd (raised campaign) (pay_amount payment)) in
  let campaign := with_raised new_raised campaign in
  let campaign :=
    if goal campaign <=? new_raised
    then with_fully_funded true campaign else campaign in
  modify (set_campaigns <[campaign_id := campaign]>) >>
  let* total := gets total_raised in
  let* total' := lift (uadd total (pay_amount payment)) in
  modify (set_total_raised total').

Definition release_milestone (ctx : Ctx) (campaign_id : Z) : M Store unit :=
  let* campaign :=
    box_get (fun s => campaigns s !! campaign_id) "Campaign not found" in
  assert_ (txn_sender ctx =? creator campaign)%N "Only creator" >>
  assert_ (fully_funded campaign) "Not fully funded yet" >>
  assert_ (milestones_released campaign <? num_milestones campaign)
          "All milestones released" >>
  let* milestone_amount :=
    lift (udiv (goal campaign) (num_milestones campaign)) in
  submit (Payment (creator campaign) milestone_amount) >>
  let* released := lift (uadd (milestones_released campaign) 1) in
  let campaign := with_milestones_released released campaign in
  let campaign :=
    if milestones_released campaign =? num_milestones campaign
    then with_active false campaign else campaign in
  modify (set_campaigns <[campaign_id := campaign]>).

Definition claim_refund (ctx : Ctx) (campaign_id : Z) : M Store unit :=
  let* campaign :=
    box_get (fun s => campaigns s !! campaign_id) "Campaign not found" in
  assert_ (deadline campaign <? latest_timestamp ctx) "Deadline not passed" >>
  assert_ (negb (fully_funded campaign)) "Campaign was funded, no refund" >>
  let donor_key := (campaign_id, txn_sender ctx) in
  let* refund_amount :=
    box_get (fun s => donations s !! donor_key) "No donation found" in
  assert_ (0 <? refund_amount) "Nothing to refund" >>
  modify (set_donations <[donor_key := 0]>) >>
  submit (Payment (txn_sender ctx) refund_amount).

Inductive Call : Type :=
| CreateCampaign (ctx : Ctx) (goal num_milestones deadline : Z)
    (title description : string)
| Donate (ctx : Ctx) (campaign_id : Z) (payment : PaymentTxn)
| ReleaseMilestone (ctx : Ctx) (campaign_id : Z)
| ClaimRefund (ctx : Ctx) (campaign_id : Z).

Definition exec (c : Call) : M Store unit :=
  match c with
  | CreateCampaign ctx g n d t descr => create_campaign ctx g n d t descr >> ret tt
  | Donate ctx id p => donate ctx id p
  | ReleaseMilestone ctx id => release_milestone ctx id
  | ClaimRefund ctx id => claim_refund ctx id
  end.

Definition run (cs : list Call) (w : World Store) : World Store :=
  foldl (fun w c => commit (exec c) w) w cs.

Definition start : World Store := mkWorld init [] 0.

(** *** Invariants, accounting and sample runs *)

(** The record [donate] writes back for a campaign that receives [amount]. *)
Definition credited (amount : Z) (c : Campaign) : Campaign :=
  let c' := with_raised (raised c + amount) c in
  if goal c' <=? raised c + amount then with_fully_funded true c' else c'.

(** The record [release_milestone] writes back. *)
Definition advanced (c : Campaign) : Campaign :=
  let c' := with_milestones_released (milestones_released c + 1) c in
  if milestones_released c' =? num_milestones c'
  then with_active false c' else c'.

(** Campaign identifiers are allocated below [next_campaign_id]; a stored
    campaign has between one and ten milestones, has released no more than
    that, and is active exactly while some milestone is left. *)
Definition wf (s : Store) : Prop :=
  forall id c, campaigns s !! id = Some c ->
    id < next_campaign_id s /\
    1 <= num_milestones c <= 10 /\
    0 <= milestones_released c <= num_milestones c /\
    (active c = true <-> milestones_released c < num_milestones c).

(** The inner transactions a call has added to the log. *)
Definition submitted (w w' : World Store) : list InnerTxn :=
  snd <$> drop (length (itxns w)) (itxns w').

(** [Some l] when the call is a [release_milestone] on campaign [id] that
    goes through, [l] being the inner transactions it submits. *)
Definition release_of (id : Z) (call : Call) (w : World Store)
    : option (list InnerTxn) :=
  match call with
  | ReleaseMilestone ctx id' =>
      if bool_decide (id' = id) then
        match release_milestone ctx id' w with
        | Ok (_, w') => Some (submitted w w')
        | Abort _ => None
        end
      else None
  | _ => None
  end.

(** The releases of campaign [id] that go through along a run, in order. *)
Fixpoint releases (id : Z) (cs : list Call) (w : World Store)
    : list (list InnerTxn) :=
  match cs with
  | [] => []
  | call :: cs' =>
      match release_of id call w with
      | Some l => l :: releases id cs' (commit (exec call) w)
      | None => releases id cs' (commit (exec call) w)
      end
  end.

Definition paid (l : list InnerTxn) : Z :=
  foldr (fun t acc => paid_amount t + acc) 0 l.

(** The scenario of the specification: a goal of 100 in three milestones,
    reached by two donations. *)
Definition party (a : Account) (now : Z) : Ctx := mkCtx a 99%N 7%N now.

Definition campaign_history : list Call :=
  [CreateCampaign (party 1%N 1000) 100 3 2000 "Fest" "Annual college fest";
   Donate (party 2%N 1100) 0 (mkPayment 99%N 60);
   Donate (party 3%N 1200) 0 (mkPayment 99%N 40)].

Definition funded_campaign : World Store := run campaign_history start.

Definition three_releases : list Call :=
  [ReleaseMilestone (party 1%N 1300) 0; ReleaseMilestone (party 1%N 1400) 0;
   ReleaseMilestone (party 1%N 1500) 0].

Definition released_campaign : World Store := run three_releases funded_campaign.

(** A campaign that has raised 60 of 100 when its deadline (2000) passes. *)
Definition lapsed_campaign : World Store :=
  run [CreateCampaign (party 1%N 1000) 100 3 2000 "Fest" "Annual college fest";
       Donate (party 2%N 1100) 0 (mkPayment 99%N 60)] start.

(** *** Read-only methods and the accounting of a run *)

Definition get_campaign_info (campaign_id : Z)
    : M Store (Account * Z * Z * Z * Z * bool) :=
  let* campaign :=
    box_get (fun s => campaigns s !! campaign_id) "Campaign not found" in
  ret (creator campaign, goal campaign, raised campaign,
       num_milestones campaign, milestones_released campaign, active campaign).

Definition get_donation (campaign_id : Z) (donor : Account) : M Store Z :=
  gets (donation_of (campaign_id, donor)).

Definition get_platform_stats : M Store (Z * Z) :=
  gets (fun s => (total_campaigns s, total_raised s)).

(** Value that enters the escrow with a call: the grouped payment of a
    donation that goes through. *)
Definition given (c : Call) (w : World Store) : Z :=
  match c, exec c w with
  | Donate _ _ p, Ok _ => pay_amount p
  | _, _ => 0
  end.

Fixpoint donated (cs : list Call) (w : World Store) : Z :=
  match cs with
  | [] => 0
  | c :: cs' => given c w + donated cs' (commit (exec c) w)
  end.

(** A stored campaign has a positive goal, has raised nothing negative and
    is fully funded exactly when what it raised reaches the goal; the
    platform counters are the number of campaigns and the sum raised. *)
Definition consistent (s : Store) : Prop :=
  wf s /\
  (forall id c, campaigns s !! id = Some c ->
     0 < goal c /\ 0 <= raised c /\
     (fully_funded c = true <-> goal c <= raised c)) /\
  total_raised s = map_sum (raised <$> campaigns s) /\
  total_campaigns s = next_campaign_id s /\
  next_campaign_id s = Z.of_nat (size (campaigns s)).

End Fundraise.

(** ** FairTicket: the event ticketing contract *)
Module Ticketing.

Record Event : Type := mkEvent {
  organizer : Account;
  price : Z;
  max_tickets : Z;
  sold : Z;
  transferable : bool;
  start_time : Z;
  end_time : Z
}.

Record Ticket : Type := mkTicket {
  event_id : Z;
  owner : Account;
  ticket_number : Z;
  used : bool;
  purchase_time : Z
}.

Record Store : Type := mkStore {
  events : gmap Z Event;
  tickets : gmap Z Ticket;
  next_event_id : Z;
  total_tickets_sold : Z
}.

Definition init : Store := mkStore ∅ ∅ 0 0.

Definition set_events (f : gmap Z Event -> gmap Z Event) (s : Store) : Store :=
  mkStore (f (events s)) (tickets s) (next_event_id s) (total_tickets_sold s).
Definition set_tickets (f : gmap Z Ticket -> gmap Z Ticket) (s : Store) : Store :=
  mkStore (events s) (f (tickets s)) (next_event_id s) (total_tickets_sold s).
Definition set_next_event_id (v : Z) (s : Store) : Store :=
  mkStore (events s) (tickets s) v (total_tickets_sold s).
Definition set_total_tickets_sold (v : Z) (s : Store) : Store :=
  mkStore (events s) (tickets s) (next_event_id s) v.

Definition with_sold (v : Z) (e : Event) : Event :=
  mkEvent (organizer e) (price e) (max_tickets e) v (transferable e)
          (start_time e) (end_time e).
Definition with_used (b : bool) (t : Ticket) : Ticket :=
  mkTicket (event_id t) (owner t) (ticket_number t) b (purchase_time t).

Definition create_event (ctx : Ctx) (name : string) (price max_tickets : Z)
    (transferable : bool) (start_time end_time : Z) (description : string)
    : M Store Z :=
  assert_ (0 <? max_tickets) "Must have at least 1 ticket" >>
  assert_ (max_tickets <=? 100000) "Max 100,000 tickets" >>
  assert_ (start_time <? end_time) "End must be after start" >>
  let* event_id := gets next_event_id in
  let* next := lift (uadd event_id 1) in
  modify (set_next_event_id next) >>
  let event := mkEvent (txn_sender ctx) price max_tickets 0 transferable
                       start_time end_time in
  modify (set_events <[event_id := event]>) >>
  ret event_id.

Definition buy_ticket (ctx : Ctx) (event_id : Z) (payment : PaymentTxn)
    : M Store Z :=
  let* event := box_get (fun s => events s !! event_id) "Event not found" in
  assert_ (sold event <? max_tickets event) "Sold out!" >>
  assert_ (pay_amount payment =? price event) "Incorrect payment amount" >>
  assert_ (pay_receiver payment =? current_application_address ctx)%N
          "Pay to app" >>
  let ticket_number := sold event in
  let app := current_application_address ctx in
  let* asset_id :=
    submit_asset_config
      (AssetConfig "CampusPay Ticket" "CPTIX" 1 0 false app app app app) in
  submit (AssetTransfer asset_id (txn_sender ctx) 1) >>
  (if negb (transferable event)
   then submit (AssetFreeze asset_id (txn_sender ctx) true)
   else ret tt) >>
  let ticket := mkTicket event_id (txn_sender ctx) ticket_number false
                         (latest_timestamp ctx) in
  modify (set_tickets <[asset_id := ticket]>) >>
  let* sold' := lift (uadd ticket_number 1) in
  modify (set_events <[event_id := with_sold sold' event]>) >>
  let* n := gets total_tickets_sold in
  let* n' := lift (uadd n 1) in
  modify (set_total_tickets_sold n') >>
  ret asset_id.

Definition verify_ticket (asset_id : Z) : M Store (Account * bool) :=
  let* ticket := box_get (fun s => tickets s !! asset_id) "Ticket not found" in
  ret (owner ticket, negb (used ticket)).

Definition use_ticket (ctx : Ctx) (asset_id : Z) : M Store unit :=
  let* ticket := box_get (fun s => tickets s !! asset_id) "Ticket not found" in
  let* event :=
    box_get (fun s => events s !! event_id ticket) "Event not found" in
  assert_ (txn_sender ctx =? organizer event)%N "Only organizer can mark used" >>
  assert_ (negb (used ticket)) "Ticket already used" >>
  modify (set_tickets <[asset_id := with_used true ticket]>).

Definition withdraw_sales (ctx : Ctx) (event_id : Z) : M Store unit :=
  let* event := box_get (fun s => events s !! event_id) "Event not found" in
  assert_ (txn_sender ctx =? organizer event)%N "Only organizer" >>
  let* revenue := lift (umul (price event) (sold event)) in
  assert_ (0 <? revenue) "No revenue to withdraw" >>
  submit (Payment (txn_sender ctx) revenue).

Inductive Call : Type :=
| CreateEvent (ctx : Ctx) (name : string) (price max_tickets : Z)
    (transferable : bool) (start_time end_time : Z) (description : string)
| BuyTicket (ctx : Ctx) (event_id : Z) (payment : PaymentTxn)
| UseTicket (ctx : Ctx) (asset_id : Z)
| WithdrawSales (ctx : Ctx) (event_id : Z).

Definition exec (c : Call) : M Store unit :=
  match c with
  | CreateEvent ctx n p m t s e d => create_event ctx n p m t s e d >> ret tt
  | BuyTicket ctx e p => buy_ticket ctx e p >> ret tt
  | UseTicket ctx a => use_ticket ctx a
  | WithdrawSales ctx e => withdraw_sales ctx e
  end.

Definition run (cs : list Call) (w : World Store) : World Store :=
  foldl (fun w c => commit (exec c) w) w cs.

Definition start : World Store := mkWorld init [] 0.

(** The ticket numbers recorded for an event, one per ticket box. *)
Definition ticket_numbers (e : Z) (s : Store) : list Z :=
  ticket_number <$>
    filter (fun t => event_id t = e) (snd <$> map_to_list (tickets s)).

(** *** Invariants, accounting and sample runs *)

(** Event identifiers are allocated below [next_event_id] and asset ids
    below the ledger's counter; an event has sold no more than its capacity,
    and the numbers of its tickets are exactly [0 .. sold - 1]. *)
Definition wf (w : World Store) : Prop :=
  (forall e ev, events (store w) !! e = Some ev ->
     e < next_event_id (store w) /\
     0 < max_tickets ev <= 100000 /\
     0 <= sold ev <= max_tickets ev /\
     ticket_numbers e (store w) ≡ₚ seqZ 0 (sold ev)) /\
  (forall a t, tickets (store w) !! a = Some t ->
     a < asset_ctr w /\ event_id t < next_event_id (store w)).

(** An event with two seats, one of them sold. *)
Definition visitor (a : Account) : Ctx := mkCtx a 99%N 7%N 1000.

Definition fest : list Call :=
  [CreateEvent (visitor 1%N) "Mood Indigo" 50 2 false 5000 6000 "College fest";
   BuyTicket (visitor 2%N) 0 (mkPayment 99%N 50)].

Definition one_seat_left : World Store := run fest start.

(** The same event before anybody has bought a ticket. *)
Definition unsold_event : World Store :=
  run [CreateEvent (visitor 1%N) "Mood Indigo" 50 2 false 5000 6000
         "College fest"] start.

(** *** Read-only methods and the accounting of a run *)

Definition get_event_info (event_id : Z)
    : M Store (Account * Z * Z * Z * bool) :=
  let* event := box_get (fun s => events s !! event_id) "Event not found" in
  ret (organizer event, price event, max_tickets event, sold event,
       transferable event).

(** Value that enters the program's custody with a call: the grouped
    payment of a purchase that goes through. *)
Definition paid_in (c : Call) (w : World Store) : Z :=
  match c, exec c w with
  | BuyTicket _ _ p, Ok _ => pay_amount p
  | _, _ => 0
  end.

Fixpoint takings (cs : list Call) (w : World Store) : Z :=
  match cs with
  | [] => 0
  | c :: cs' => paid_in c w + takings cs' (commit (exec c) w)
  end.

(** [price * sold], the revenue [withdraw_sales] computes for an event. *)
Definition revenue (ev : Event) : Z := price ev * sold ev.

(** The counters agree with the boxes: one ticket box per ticket sold, the
    tickets sold being those of the events, and one event per identifier. *)
Definition booked (s : Store) : Prop :=
  total_tickets_sold s = Z.of_nat (size (tickets s)) /\
  total_tickets_sold s = map_sum (sold <$> events s) /\
  next_event_id s = Z.of_nat (size (events s)).

End Ticketing.

(** ** Failure classes *)

Inductive ErrorClass : Type :=
| NotFound
| Authorization
| StateConflict
| BoundsArithmetic
| Temporal.

Definition not_found_messages : list string :=
  ["Group not found"; "Campaign not found"; "No donation found";
   "Event not found"; "Ticket not found"].

Definition authorization_messages : list string :=
  ["Only creator can verify"; "Only creator can settle"; "Only creator";
   "Only organizer can mark used"; "Only organizer"].

Definition state_conflict_messages : list string :=
  ["Group already settled"; "Not fully funded"; "Already settled";
   "Campaign not active"; "Not fully funded yet"; "All milestones released";
   "Campaign was funded, no refund"; "Nothing to refund";
   "Sold out!"; "Ticket already used"].

Definition temporal_messages : list string :=
  ["Deadline must be in future"; "Deadline not passed";
   "End must be after start"].

(** The failure classes are the taxonomy of the specification's
    error-handling section; the code only has the assertion messages.  Every
    message of the contracts is filed under the class that section
    describes; the remaining messages and the arithmetic panics are bounds
    failures. *)
Definition classify (f : Failure) : ErrorClass :=
  match f with
  | ArithPanic => BoundsArithmetic
  | AssertFailed msg =>
      if existsb (String.eqb msg) not_found_messages then NotFound
      else if existsb (String.eqb msg) authorization_messages then Authorization
      else if existsb (String.eqb msg) state_conflict_messages then StateConflict
      else if existsb (String.eqb msg) temporal_messages then Temporal
      else BoundsArithmetic
  end.

(** * Properties *)

(** ** Symbolic execution of the monad *)

Ltac unfold_machine :=
  unfold box_get, bind, ret, assert_, gets, modify, lift, submit,
    submit_asset_config, uadd, usub, umul, udiv in *.

#[local] Arguments Z.leb : simpl never.
#[local] Arguments Z.ltb : simpl never.
#[local] Arguments Z.eqb : simpl never.
#[local] Arguments N.eqb : simpl never.
#[local] Arguments Z.add : simpl never.
#[local] Arguments Z.sub : simpl never.
#[local] Arguments Z.mul : simpl never.
#[local] Arguments Z.div : simpl never.

Ltac machine_red H :=
  cbv beta iota zeta delta
    [box_get bind ret assert_ gets modify lift submit submit_asset_config
     uadd usub umul udiv store itxns asset_ctr] in H.

(** Splits on the innermost test the run in [H] is stuck on. *)
Ltac exec_step H :=
  match type of H with
  | context [match ?x with _ => _ end] =>
      lazymatch x with
      | context [match _ with _ => _ end] => fail
      | _ => let E := fresh "E" in destruct x eqn:E; machine_red H
      end
  end.

(** Runs a method whose result is known, splitting on every test. *)
Ltac exec_inv H :=
  machine_red H; repeat exec_step H;
  try discriminate H;
  try (injection H as H; subst);
  simpl in *.

(** Turns the boolean tests of the code into propositions. *)
Ltac reflect_tests :=
  repeat match goal with
         | H : (_ =? _)%N = true |- _ => apply N.eqb_eq in H
         | H : (_ =? _)%N = false |- _ => apply N.eqb_neq in H
         | H : negb _ = true |- _ => apply negb_true_iff in H
         | H : negb _ = false |- _ => apply negb_false_iff in H
         end.

Section MapSum.
Context `{Countable K}.
Implicit Types m : gmap K Z.

Lemma map_sum_empty : map_sum (∅ : gmap K Z) = 0.
Proof. unfold map_sum. apply map_fold_empty. Qed.

Lemma map_sum_fresh m k v :
  m !! k = None -> map_sum (<[k := v]> m) = v + map_sum m.
Proof.
  intros Hk. unfold map_sum.
  rewrite map_fold_insert_L; [done | intros; lia | done].
Qed.

Lemma map_sum_delete m k v :
  m !! k = Some v -> map_sum m = v + map_sum (delete k m).
Proof.
  intros Hk. unfold map_sum.
  rewrite (map_fold_delete_L _ _ k v m); [done | intros; lia | done].
Qed.

Lemma map_sum_insert m k v :
  map_sum (<[k := v]> m) = map_sum m - default 0 (m !! k) + v.
Proof.
  destruct (m !! k) as [x|] eqn:Hk; simpl.
  - rewrite <- insert_delete_eq.
    rewrite map_sum_fresh by apply lookup_delete_eq.
    rewrite (map_sum_delete m k x Hk). lia.
  - rewrite map_sum_fresh by done. lia.
Qed.

Lemma map_sum_lookup_le m k v :
  (forall j x, m !! j = Some x -> 0 <= x) ->
  m !! k = Some v -> v <= map_sum m.
Proof.
  intros Hpos Hk. rewrite (map_sum_delete m k v Hk).
  assert (0 <= map_sum (delete k m)); [|lia].
  assert (Hd : forall j x, delete k m !! j = Some x -> 0 <= x).
  { intros j x Hj. apply lookup_delete_Some in Hj as [_ Hj]. eauto. }
  revert Hd. generalize (delete k m). intros m'.
  induction m' as [|j x m' Hj IH] using map_ind; intros Hd.
  - rewrite map_sum_empty. lia.
  - rewrite map_sum_fresh by done.
    assert (0 <= x) by (apply (Hd j); apply lookup_insert_eq).
    assert (0 <= map_sum m'); [|lia].
    apply IH. intros j' x' Hj'. apply (Hd j').
    rewrite lookup_insert_ne; [done|]. intros ->. congruence.
Qed.
End MapSum.

Lemma total_paid_app {S} (l1 l2 : list (S * InnerTxn)) :
  total_paid (l1 ++ l2) = total_paid l1 + total_paid l2.
Proof. induction l1 as [|e l1 IH]; simpl; [|rewrite IH]; lia. Qed.

(** ** The balance ledger *)
Module PaymentProofs.
Import Payment.

#[local] Arguments balance_of : simpl never.

(** What a deposit that goes through has done. *)
Lemma deposit_ok ctx p w w' :
  deposit ctx p w = Ok (tt, w') ->
  0 < pay_amount p /\
  pay_receiver p = current_application_address ctx /\
  balances (store w') =
    <[txn_sender ctx := balance_of (txn_sender ctx) (store w) + pay_amount p]>
      (balances (store w)) /\
  balance_of (txn_sender ctx) (store w) + pay_amount p <= MAX_UINT64 /\
  total_volume (store w') = total_volume (store w) + pay_amount p /\
  total_volume (store w') <= MAX_UINT64 /\
  itxns w' = itxns w.
Proof.
  intros Hrun. unfold deposit, bump_active_users, bump_total_transactions in Hrun.
  exec_inv Hrun; reflect_tests; repeat split; try done; lia.
Qed.

(** What a transfer that goes through has done. *)
Lemma send_money_ok ctx recipient amount note w r w' :
  send_money ctx recipient amount note w = Ok (r, w') ->
  let sender := txn_sender ctx in
  let debited :=
    <[sender := balance_of sender (store w) - amount]> (balances (store w)) in
  amount <= balance_of sender (store w) /\
  0 < amount /\
  balances (store w') =
    <[recipient := default 0 (debited !! recipient) + amount]> debited /\
  total_volume (store w') = total_volume (store w) /\
  itxns w' = itxns w /\
  r = total_transactions (store w) + 1 /\
  r = total_transactions (store w').
Proof.
  intros Hrun. unfold send_money, bump_active_users, bump_total_transactions in Hrun.
  exec_inv Hrun; reflect_tests; repeat split; try done; lia.
Qed.

(** What a withdrawal that goes through has done. *)
Lemma withdraw_ok ctx amount w w' :
  withdraw ctx amount w = Ok (tt, w') ->
  let sender := txn_sender ctx in
  amount <= balance_of sender (store w) /\
  0 < amount /\
  balances (store w') =
    <[sender := balance_of sender (store w) - amount]> (balances (store w)) /\
  total_volume (store w') = total_volume (store w) /\
  itxns w' = itxns w ++ [(store w', Payment sender amount)].
Proof.
  intros Hrun. unfold withdraw in Hrun.
  exec_inv Hrun; reflect_tests; repeat split; try done; lia.
Qed.

Lemma balance_of_nonneg s a : nonneg s -> 0 <= balance_of a s.
Proof.
  intros Hs. unfold balance_of.
  destruct (balances s !! a) as [v|] eqn:Ha; simpl; [eauto | lia].
Qed.

Lemma nonneg_insert (m : gmap Account Z) k v :
  (forall a x, m !! a = Some x -> 0 <= x) -> 0 <= v ->
  forall a x, <[k := v]> m !! a = Some x -> 0 <= x.
Proof.
  intros Hm Hv a x Ha. apply lookup_insert_Some in Ha as [[_ <-]|[_ Ha]]; eauto.
Qed.

Lemma debit_sum s a amount :
  0 < amount -> amount <= balance_of a s ->
  map_sum (<[a := balance_of a s - amount]> (balances s)) =
  map_sum (balances s) - amount.
Proof.
  intros Hpos Hle. rewrite map_sum_insert. unfold balance_of in *. lia.
Qed.

(** Moving [amount] from one balance to another keeps the sum. *)
Lemma transfer_sum s a b amount :
  0 < amount -> amount <= balance_of a s ->
  let debited := <[a := balance_of a s - amount]> (balances s) in
  map_sum (<[b := default 0 (debited !! b) + amount]> debited) =
  map_sum (balances s).
Proof.
  intros Hpos Hle debited. rewrite map_sum_insert.
  unfold debited. rewrite debit_sum by done. lia.
Qed.

Lemma transfer_nonneg s a b amount :
  nonneg s -> 0 < amount -> amount <= balance_of a s ->
  let debited := <[a := balance_of a s - amount]> (balances s) in
  forall k v,
    <[b := default 0 (debited !! b) + amount]> debited !! k = Some v -> 0 <= v.
Proof.
  intros Hs Hpos Hle debited.
  assert (Hd : forall k v, debited !! k = Some v -> 0 <= v).
  { apply nonneg_insert; [exact Hs | lia]. }
  apply nonneg_insert; [exact Hd |].
  destruct (debited !! b) as [v|] eqn:Hb; simpl; [|lia].
  specialize (Hd b v Hb). lia.
Qed.

Lemma balanced_step c w deposited :
  balanced w deposited ->
  balanced (commit (exec c) w) (deposited + inbound c w).
Proof.
  intros [Hpos Hsum]. unfold commit, inbound.
  destruct c as [ctx p|ctx recipient amount note|ctx amount]; simpl.
  - destruct (deposit ctx p w) as [[[] w']|f] eqn:Hrun.
    + apply deposit_ok in Hrun as (Hamt & _ & Hbal & _ & _ & _ & Hlog).
      pose proof (balance_of_nonneg _ (txn_sender ctx) Hpos) as Hb.
      split.
      * unfold nonneg. rewrite Hbal. apply nonneg_insert; [exact Hpos | lia].
      * rewrite Hbal, Hlog, map_sum_insert. unfold balance_of in *. lia.
    + split; [done | lia].
  - unfold bind at 1.
    destruct (send_money ctx recipient amount note w) as [[r w']|f] eqn:Hrun.
    + apply send_money_ok in Hrun as (Hle & Hamt & Hbal & _ & Hlog & _).
      simpl. split.
      * unfold nonneg. rewrite Hbal. by apply transfer_nonneg.
      * rewrite Hbal, Hlog, transfer_sum by done. lia.
    + split; [done | lia].
  - destruct (withdraw ctx amount w) as [[[] w']|f] eqn:Hrun.
    + apply withdraw_ok in Hrun as (Hle & Hamt & Hbal & _ & Hlog).
      split.
      * unfold nonneg. rewrite Hbal. apply nonneg_insert; [exact Hpos | lia].
      * rewrite Hbal, Hlog, debit_sum, total_paid_app by done. simpl. lia.
    + split; [done | lia].
Qed.

Lemma balanced_run cs : forall w deposited,
  balanced w deposited ->
  balanced (fst (run cs w deposited)) (snd (run cs w deposited)).
Proof.
  induction cs as [|c cs IH]; intros w deposited Hw; simpl; [done|].
  apply IH. by apply balanced_step.
Qed.

Lemma balanced_start : balanced start 0.
Proof.
  split.
  - intros a v Ha. simpl in Ha. by rewrite lookup_empty in Ha.
  - simpl. by rewrite map_sum_empty.
Qed.

(** C2.  After any sequence of deposits, transfers and withdrawals from
    the empty ledger, no balance is negative and the balances add up to no
    more than the value deposited minus the value withdrawn. *)
Theorem ledger_within_net_inbound (cs : list Call) :
  let w := fst (run cs start 0) in
  let deposited := snd (run cs start 0) in
  let withdrawn := total_paid (itxns w) in
  (forall a v, balances (store w) !! a = Some v -> 0 <= v) /\
  map_sum (balances (store w)) <= deposited - withdrawn.
Proof.
  destruct (balanced_run cs start 0 balanced_start) as [Hpos Hsum].
  split; [exact Hpos | lia].
Qed.

Lemma solvent_step c w : solvent (store w) -> solvent (store (commit (exec c) w)).
Proof.
  intros (Hpos & Hsum & Hvol). unfold commit.
  destruct c as [ctx p|ctx recipient amount note|ctx amount]; simpl.
  - destruct (deposit ctx p w) as [[[] w']|f] eqn:Hrun; [|done].
    apply deposit_ok in Hrun as (Hamt & _ & Hbal & _ & Hv & Hv' & _).
    pose proof (balance_of_nonneg _ (txn_sender ctx) Hpos) as Hb.
    repeat split; [| |done].
    + unfold nonneg. rewrite Hbal. apply nonneg_insert; [exact Hpos | lia].
    + rewrite Hbal, Hv, map_sum_insert. unfold balance_of in *. lia.
  - unfold bind at 1.
    destruct (send_money ctx recipient amount note w) as [[r w']|f] eqn:Hrun;
      [|done].
    apply send_money_ok in Hrun as (Hle & Hamt & Hbal & Hv & _).
    simpl. repeat split.
    + unfold nonneg. rewrite Hbal. by apply transfer_nonneg.
    + rewrite Hbal, Hv, transfer_sum by done. lia.
    + by rewrite Hv.
  - destruct (withdraw ctx amount w) as [[[] w']|f] eqn:Hrun; [|done].
    apply withdraw_ok in Hrun as (Hle & Hamt & Hbal & Hv & _).
    repeat split.
    + unfold nonneg. rewrite Hbal. apply nonneg_insert; [exact Hpos | lia].
    + rewrite Hbal, Hv, debit_sum by done. lia.
    + by rewrite Hv.
Qed.

(** Every state the ledger can reach is solvent. *)
Lemma solvent_run cs : forall w d,
  solvent (store w) -> solvent (store (fst (run cs w d))).
Proof.
  induction cs as [|c cs IH]; intros w d Hw; simpl; [done|].
  apply IH. by apply solvent_step.
Qed.

Lemma solvent_init : solvent init.
Proof.
  repeat split; simpl.
  - intros a v Ha. simpl in Ha. by rewrite lookup_empty in Ha.
  - rewrite map_sum_empty. lia.
  - unfold MAX_UINT64. lia.
Qed.

(** In a solvent ledger crediting the recipient cannot overflow. *)
Lemma credit_in_range s a b amount :
  solvent s -> 0 < amount -> amount <= balance_of a s ->
  let debited := <[a := balance_of a s - amount]> (balances s) in
  default 0 (debited !! b) + amount <= MAX_UINT64.
Proof.
  intros (Hpos & Hsum & Hvol) Hamt Hle debited.
  assert (Hd : forall k v, debited !! k = Some v -> 0 <= v).
  { apply nonneg_insert; [exact Hpos | lia]. }
  assert (Hs : map_sum debited = map_sum (balances s) - amount)
    by by apply debit_sum.
  destruct (debited !! b) as [v|] eqn:Hb; simpl.
  - pose proof (map_sum_lookup_le debited b v Hd Hb). lia.
  - pose proof (balance_of_nonneg s a Hpos) as Ha.
    assert (balance_of a s <= map_sum (balances s)); [|lia].
    unfold balance_of in *.
    destruct (balances s !! a) as [x|] eqn:Hx; simpl in *; [|lia].
    by apply (map_sum_lookup_le _ a).
Qed.

(** C9.  In a solvent ledger whose two counters are below the [UInt64]
    maximum, [send_money] goes through exactly when the caller's balance
    covers a positive amount; it then debits the caller, credits the
    recipient (whose record is read as zero when absent), submits no inner
    transaction and returns the incremented transaction counter. *)
Theorem send_money_spec ctx recipient amount note w :
  solvent (store w) ->
  total_transactions (store w) < MAX_UINT64 ->
  active_users (store w) < MAX_UINT64 ->
  let sender := txn_sender ctx in
  let debited :=
    <[sender := balance_of sender (store w) - amount]> (balances (store w)) in
  (succeeds (send_money ctx recipient amount note) w <->
     amount <= balance_of sender (store w) /\ 0 < amount) /\
  (forall r w',
     send_money ctx recipient amount note w = Ok (r, w') ->
     balances (store w') =
       <[recipient := default 0 (debited !! recipient) + amount]> debited /\
     (recipient <> sender ->
        balance_of sender (store w') = balance_of sender (store w) - amount /\
        balance_of recipient (store w') =
          balance_of recipient (store w) + amount) /\
     (recipient = sender ->
        balance_of sender (store w') = balance_of sender (store w)) /\
     itxns w' = itxns w /\
     r = total_transactions (store w) + 1 /\
     total_transactions (store w') = r).
Proof.
  intros Hsolv Htx Hau sender debited. split.
  - split.
    + intros (r & w' & Hrun).
      apply send_money_ok in Hrun as (Hle & Hamt & _). done.
    + intros [Hle Hamt].
      pose proof (credit_in_range _ sender recipient amount Hsolv Hamt Hle)
        as Hcredit.
      destruct (send_money ctx recipient amount note w) as [[r w']|f] eqn:Hrun;
        [by exists r, w' | exfalso].
      unfold send_money, bump_active_users, bump_total_transactions in Hrun.
      fold sender in Hrun.
      exec_inv Hrun; unfold balance_of in *; simpl in *; lia.
  - intros r w' Hrun.
    apply send_money_ok in Hrun as (Hle & Hamt & Hbal & _ & Hlog & Hr & Hr').
    fold sender debited in Hbal.
    repeat split; try done.
    + unfold balance_of. rewrite Hbal.
      rewrite lookup_insert_ne by done.
      unfold debited. by rewrite lookup_insert_eq.
    + unfold balance_of. rewrite Hbal, lookup_insert_eq.
      unfold debited. rewrite lookup_insert_ne by done. done.
    + intros ->. unfold balance_of. rewrite Hbal, lookup_insert_eq.
      unfold debited. rewrite lookup_insert_eq. simpl.
      fold (balance_of sender (store w)). lia.
Qed.

Lemma send_money_spec_witness :
  succeeds (send_money alice 2%N 4 "Mess bill January") funded_ledger.
Proof.
  apply (send_money_spec alice 2%N 4 "Mess bill January" funded_ledger).
  - apply solvent_run, solvent_init.
  - vm_compute. reflexivity.
  - vm_compute. reflexivity.
  - split; vm_compute; [discriminate | reflexivity].
Defined.

(** [withdraw] has debited the caller when it submits the payment. *)
Lemma withdraw_debits_first ctx amount w w' :
  withdraw ctx amount w = Ok (tt, w') ->
  exists seen,
    itxns w' = itxns w ++ [(seen, Payment (txn_sender ctx) amount)] /\
    balances seen = balances (store w') /\
    balance_of (txn_sender ctx) seen =
      balance_of (txn_sender ctx) (store w) - amount.
Proof.
  intros Hrun. apply withdraw_ok in Hrun as (_ & _ & Hbal & _ & Hlog).
  exists (store w'). repeat split; [done|].
  unfold balance_of at 1. by rewrite Hbal, lookup_insert_eq.
Qed.

(** *** Deposits, withdrawals and campus verification *)




(** X3.  [verify_campus] is open to the creator of the application only:
    anybody else is rejected.  For the creator it records the campus of the
    user and marks the user verified, so that [is_verified] answers true for
    that user afterwards and answers for every other user as before; no
    balance is touched and nothing is paid. *)
Theorem verify_campus_spec ctx user campus w :
  (txn_sender ctx = creator_address ctx ->
   exists w',
     verify_campus ctx user campus w = Ok (true, w') /\
     is_verified user w' = Ok (true, w') /\
     campus_id (store w') !! user = Some campus /\
     (forall u v, u <> user ->
        is_verified u w = Ok (v, w) -> is_verified u w' = Ok (v, w')) /\
     balances (store w') = balances (store w) /\
     itxns w' = itxns w) /\
  (txn_sender ctx <> creator_address ctx ->
   verify_campus ctx user campus w =
     Abort (AssertFailed "Only creator can verify")).
Proof.
  split.
  - intros Hc. apply N.eqb_eq in Hc.
    unfold verify_campus, is_verified. unfold_machine. simpl. rewrite Hc.
    eexists. split; [done|]. simpl. repeat split.
    + by rewrite lookup_insert_eq.
    + by rewrite lookup_insert_eq.
    + intros u v Hu Hv. rewrite lookup_insert_ne by done. congruence.
  - intros Hc. apply N.eqb_neq in Hc.
    unfold verify_campus. unfold_machine. simpl. by rewrite Hc.
Qed.

(** An account nobody verified is reported as not verified. *)
Lemma is_verified_default user w :
  campus_verified (store w) !! user = None -> is_verified user w = Ok (false, w).
Proof. intros Hu. unfold is_verified, gets. by rewrite Hu. Qed.

Lemma counters_step c w :
  total_volume (store (commit (exec c) w)) =
    total_volume (store w) + inbound c w /\
  total_transactions (store (commit (exec c) w)) =
    total_transactions (store w) + counted c w /\
  campus_verified (store (commit (exec c) w)) = campus_verified (store w).
Proof.
  unfold commit, inbound, counted.
  destruct c as [ctx p|ctx recipient amount note|ctx amount]; simpl.
  - destruct (deposit ctx p w) as [[[] w']|f] eqn:Hrun;
      [|repeat split; lia].
    unfold deposit, bump_active_users, bump_total_transactions in Hrun.
    exec_inv Hrun; repeat split; lia.
  - unfold bind.
    destruct (send_money ctx recipient amount note w) as [[r w']|f] eqn:Hrun;
      simpl; [|repeat split; lia].
    unfold send_money, bump_active_users, bump_total_transactions in Hrun.
    exec_inv Hrun; repeat split; lia.
  - destruct (withdraw ctx amount w) as [[[] w']|f] eqn:Hrun;
      [|repeat split; lia].
    unfold withdraw in Hrun. exec_inv Hrun; repeat split; lia.
Qed.

Lemma counters_run cs : forall w d,
  let w' := fst (run cs w d) in
  total_volume (store w') - total_volume (store w) = snd (run cs w d) - d /\
  total_transactions (store w') =
    total_transactions (store w) + transactions cs w /\
  campus_verified (store w') = campus_verified (store w).
Proof.
  induction cs as [|c cs IH]; intros w d; simpl.
  - repeat split; lia.
  - destruct (counters_step c w) as (Hv & Ht & Hc).
    destruct (IH (commit (exec c) w) (d + inbound c w)) as (Hv' & Ht' & Hc').
    repeat split; [lia | lia | congruence].
Qed.

(** X4.  After any sequence of deposits, transfers and withdrawals from the
    empty ledger, [total_volume] is the value deposited (transfers and
    withdrawals never change it), [total_transactions] is the number of
    deposits and transfers that went through (withdrawals are not counted),
    which is what [get_stats] reports, and no account has been verified. *)
Theorem ledger_counters (cs : list Call) :
  let w := fst (run cs start 0) in
  total_volume (store w) = snd (run cs start 0) /\
  total_transactions (store w) = transactions cs start /\
  get_stats w =
    Ok ((snd (run cs start 0), transactions cs start, active_users (store w)), w) /\
  campus_verified (store w) = ∅.
Proof.
  destruct (counters_run cs start 0) as (Hv & Ht & Hc). simpl in *.
  assert (total_volume (store (fst (run cs start 0))) = snd (run cs start 0))
    as Hv' by lia.
  repeat split; try done.
  unfold get_stats, gets. by rewrite Hv', Ht.
Qed.

(** X5.  A transfer moves value between balances only: the sum of all
    balances is the same before and after. *)
Theorem send_money_conserves ctx recipient amount note w r w' :
  send_money ctx recipient amount note w = Ok (r, w') ->
  map_sum (balances (store w')) = map_sum (balances (store w)).
Proof.
  intros Hrun. apply send_money_ok in Hrun as (Hle & Hamt & Hbal & _).
  rewrite Hbal. by apply transfer_sum.
Qed.

Lemma send_money_conserves_witness :
  map_sum (balances (store
    (commit (send_money alice 2%N 4 "Mess bill January") funded_ledger))) =
  map_sum (balances (store funded_ledger)).
Proof.
  apply (send_money_conserves alice 2%N 4 "Mess bill January" funded_ledger
           (total_transactions (store funded_ledger) + 1)).
  vm_compute. reflexivity.
Defined.

(** X6.  What was just deposited can be withdrawn at once: after a deposit
    the same caller's withdrawal of the same amount goes through, pays the
    amount back and leaves every balance as it was read before the deposit. *)
Theorem deposit_then_withdraw ctx p w w1 :
  nonneg (store w) ->
  deposit ctx p w = Ok (tt, w1) ->
  exists w2,
    withdraw ctx (pay_amount p) w1 = Ok (tt, w2) /\
    (forall a, balance_of a (store w2) = balance_of a (store w)) /\
    snd <$> itxns w2 =
      (snd <$> itxns w) ++ [Payment (txn_sender ctx) (pay_amount p)].
Proof.
  intros Hpos Hdep.
  apply deposit_ok in Hdep as (Hamt & _ & Hbal & _ & _ & _ & Hlog).
  assert (Hnow : balance_of (txn_sender ctx) (store w1) =
                 balance_of (txn_sender ctx) (store w) + pay_amount p).
  { unfold balance_of at 1. by rewrite Hbal, lookup_insert_eq. }
  pose proof (balance_of_nonneg _ (txn_sender ctx) Hpos) as Hb.
  destruct (withdraw ctx (pay_amount p) w1) as [[[] w2]|f] eqn:Hrun.
  2: { exfalso. unfold withdraw in Hrun. exec_inv Hrun; lia. }
  exists w2. split; [done|].
  apply withdraw_ok in Hrun as (_ & _ & Hbal2 & _ & Hlog2).
  split.
  - intros a. unfold balance_of at 1. rewrite Hbal2, Hnow, Hbal.
    destruct (decide (a = txn_sender ctx)) as [->|Hne].
    + rewrite lookup_insert_eq. simpl. lia.
    + by rewrite !lookup_insert_ne by done.
  - by rewrite Hlog2, Hlog, fmap_app.
Qed.

Lemma deposit_then_withdraw_witness :
  exists w2,
    withdraw alice 5
      (commit (deposit alice (mkPayment 99%N 5)) funded_ledger) = Ok (tt, w2) /\
    balance_of 1%N (store w2) = 10.
Proof.
  destruct (deposit_then_withdraw alice (mkPayment 99%N 5) funded_ledger
              (commit (deposit alice (mkPayment 99%N 5)) funded_ledger))
    as (w2 & Hrun & Hbal & _).
  - apply solvent_run, solvent_init.
  - vm_compute. reflexivity.
  - exists w2. split; [exact Hrun|]. by rewrite Hbal.
Defined.

End PaymentProofs.

(** ** The group contribution escrow *)
Module ExpenseProofs.
Import Expense.

#[local] Arguments contribution_of : simpl never.

Lemma create_group_ok ctx total n dl rate descr w id w' :
  create_group ctx total n dl rate descr w = Ok (id, w') ->
  id = next_group_id (store w) /\
  2 <= n <= 50 /\
  0 < total /\
  groups (store w') =
    <[id := mkGroup (txn_sender ctx) total n 0 false dl rate]>
      (groups (store w)) /\
  contributions (store w') = contributions (store w) /\
  next_group_id (store w') = id + 1 /\
  itxns w' = itxns w.
Proof.
  intros Hrun. unfold create_group in Hrun.
  exec_inv Hrun; reflect_tests; repeat split; try done; lia.
Qed.

(** What a contribution that goes through has done. *)
Lemma contribute_ok ctx id p w w' :
  contribute ctx id p w = Ok (tt, w') ->
  let key := (id, txn_sender ctx) in
  exists g,
    groups (store w) !! id = Some g /\
    settled g = false /\
    pay_receiver p = current_application_address ctx /\
    num_members g <> 0 /\
    total_amount g / num_members g <= pay_amount p /\
    contributions (store w') =
      <[key := contribution_of key (store w) + pay_amount p]>
        (contributions (store w)) /\
    groups (store w') =
      <[id := with_total_contributed (total_contributed g + pay_amount p) g]>
        (groups (store w)) /\
    next_group_id (store w') = next_group_id (store w) /\
    itxns w' = itxns w.
Proof.
  intros Hrun. unfold contribute in Hrun.
  exec_inv Hrun; reflect_tests.
  eexists; repeat split; try done; lia.
Qed.

(** What a settlement that goes through has done: the payment is
    submitted when the group is already stored as settled. *)
Lemma settle_group_ok ctx id w w' :
  settle_group ctx id w = Ok (tt, w') ->
  exists g seen,
    groups (store w) !! id = Some g /\
    txn_sender ctx = creator g /\
    total_amount g <= total_contributed g /\
    settled g = false /\
    groups (store w') = <[id := with_settled true g]> (groups (store w)) /\
    contributions (store w') = contributions (store w) /\
    next_group_id (store w') = next_group_id (store w) /\
    itxns w' = itxns w ++ [(seen, Payment (creator g) (total_amount g))] /\
    groups seen = groups (store w').
Proof.
  intros Hrun. unfold settle_group in Hrun.
  exec_inv Hrun; reflect_tests.
  eexists _, _; repeat split; try done; lia.
Qed.

Lemma groups_wf_init : wf init.
Proof. intros id g Hg. simpl in Hg. by rewrite lookup_empty in Hg. Qed.

Lemma groups_wf_step c w : wf (store w) -> wf (store (commit (exec c) w)).
Proof.
  intros Hwf. unfold commit.
  destruct c as [ctx total n dl rate descr|ctx id p|ctx id]; simpl.
  - unfold bind at 1.
    destruct (create_group ctx total n dl rate descr w) as [[id w']|f] eqn:Hrun;
      [|done].
    apply create_group_ok in Hrun as (-> & Hn & _ & Hg & _ & Hnext & _).
    simpl. intros id g Hid. rewrite Hg in Hid. rewrite Hnext.
    apply lookup_insert_Some in Hid as [[<- <-]|[_ Hid]]; simpl; [lia|].
    apply Hwf in Hid. lia.
  - destruct (contribute ctx id p w) as [[[] w']|f] eqn:Hrun; [|done].
    apply contribute_ok in Hrun
      as (g & Hg & _ & _ & _ & _ & _ & Hg' & Hnext & _).
    intros id' g' Hid. rewrite Hg' in Hid. rewrite Hnext.
    apply lookup_insert_Some in Hid as [[<- <-]|[_ Hid]]; simpl; eauto.
  - destruct (settle_group ctx id w) as [[[] w']|f] eqn:Hrun; [|done].
    apply settle_group_ok in Hrun
      as (g & seen & Hg & _ & _ & _ & Hg' & _ & Hnext & _).
    intros id' g' Hid. rewrite Hg' in Hid. rewrite Hnext.
    apply lookup_insert_Some in Hid as [[<- <-]|[_ Hid]]; simpl; eauto.
Qed.

Lemma groups_wf_run cs : forall w, wf (store w) -> wf (store (run cs w)).
Proof.
  induction cs as [|c cs IH]; intros w Hw; simpl; [done|].
  apply IH. by apply groups_wf_step.
Qed.

(** No call touches a settled group. *)
Lemma settled_step c w id g :
  wf (store w) ->
  groups (store w) !! id = Some g -> settled g = true ->
  groups (store (commit (exec c) w)) !! id = Some g.
Proof.
  intros Hwf Hg Hs. unfold commit.
  destruct c as [ctx total n dl rate descr|ctx id' p|ctx id']; simpl.
  - unfold bind at 1.
    destruct (create_group ctx total n dl rate descr w) as [[k w']|f] eqn:Hrun;
      [|done].
    apply create_group_ok in Hrun as (-> & _ & _ & Hg' & _).
    simpl. rewrite Hg', lookup_insert_ne; [done|].
    apply Hwf in Hg. lia.
  - destruct (contribute ctx id' p w) as [[[] w']|f] eqn:Hrun; [|done].
    apply contribute_ok in Hrun as (g' & Hg' & Hs' & _ & _ & _ & _ & Hgs & _).
    rewrite Hgs, lookup_insert_ne; [done|]. intros ->. congruence.
  - destruct (settle_group ctx id' w) as [[[] w']|f] eqn:Hrun; [|done].
    apply settle_group_ok in Hrun
      as (g' & seen & Hg' & _ & _ & Hs' & Hgs & _).
    rewrite Hgs, lookup_insert_ne; [done|]. intros ->. congruence.
Qed.

Lemma settled_run cs : forall w id g,
  wf (store w) ->
  groups (store w) !! id = Some g -> settled g = true ->
  groups (store (run cs w)) !! id = Some g.
Proof.
  induction cs as [|c cs IH]; intros w id g Hwf Hg Hs; simpl; [done|].
  apply IH; [by apply groups_wf_step | by apply settled_step | done].
Qed.

(** Settling a settled group is rejected; the creator is told so. *)
Lemma settle_group_settled ctx id w g :
  groups (store w) !! id = Some g -> settled g = true ->
  (exists f, settle_group ctx id w = Abort f) /\
  (txn_sender ctx = creator g -> total_amount g <= total_contributed g ->
   settle_group ctx id w = Abort (AssertFailed "Already settled")).
Proof.
  intros Hg Hs. split.
  - destruct (settle_group ctx id w) as [[[] w']|f] eqn:Hrun; [|by exists f].
    apply settle_group_ok in Hrun as (g' & _ & Hg' & _ & _ & Hs' & _).
    congruence.
  - intros Hc Hfull. unfold settle_group.
    unfold_machine. simpl. rewrite Hg, Hs.
    apply N.eqb_eq in Hc. apply Z.leb_le in Hfull. by rewrite Hc, Hfull.
Qed.

(** [settle_group] has stored the group as settled when it submits the
    payment. *)
Lemma settle_group_marks_first ctx id w w' :
  settle_group ctx id w = Ok (tt, w') ->
  exists seen g,
    itxns w' = itxns w ++ [(seen, Payment (creator g) (total_amount g))] /\
    groups (store w) !! id = Some g /\
    (settled <$> groups seen !! id) = Some true.
Proof.
  intros Hrun.
  apply settle_group_ok in Hrun
    as (g & seen & Hg & _ & _ & _ & Hg' & _ & _ & Hlog & Hseen).
  exists seen, g. repeat split; try done.
  by rewrite Hseen, Hg', lookup_insert_eq.
Qed.

(** C4.  A settlement goes through only for the creator of an unsettled
    group whose contributions cover the total, and for that caller and such
    a group it does go through (as long as [total_split] stays within
    [UInt64]).  Every settlement that goes through stores the group as
    settled and pays exactly the total to the creator; from then on the
    group stays settled and every later [settle_group] on it is rejected. *)
Theorem settle_group_once ctx id w :
  wf (store w) ->
  (succeeds (settle_group ctx id) w ->
   exists g,
     groups (store w) !! id = Some g /\
     txn_sender ctx = creator g /\
     total_amount g <= total_contributed g /\
     settled g = false) /\
  (forall g,
     groups (store w) !! id = Some g ->
     txn_sender ctx = creator g ->
     total_amount g <= total_contributed g ->
     settled g = false ->
     total_split (store w) + total_amount g <= MAX_UINT64 ->
     succeeds (settle_group ctx id) w) /\
  (forall w',
     settle_group ctx id w = Ok (tt, w') ->
     exists g,
       groups (store w) !! id = Some g /\
       txn_sender ctx = creator g /\
       total_amount g <= total_contributed g /\
       settled g = false /\
       groups (store w') = <[id := with_settled true g]> (groups (store w)) /\
       (exists seen,
          itxns w' = itxns w ++ [(seen, Payment (creator g) (total_amount g))]) /\
       forall cs ctx2,
         let w2 := run cs w' in
         (exists g2, groups (store w2) !! id = Some g2 /\ settled g2 = true) /\
         (exists f, settle_group ctx2 id w2 = Abort f) /\
         (txn_sender ctx2 = creator g ->
          settle_group ctx2 id w2 = Abort (AssertFailed "Already settled"))).
Proof.
  intros Hwf. split; [|split].
  - intros ([] & w' & Hrun).
    apply settle_group_ok in Hrun as (g & seen & Hg & Hc & Hfull & Hs & _).
    by exists g.
  - intros g Hg Hc Hfull Hs Hsplit.
    destruct (settle_group ctx id w) as [[[] w']|f] eqn:Hrun;
      [by exists tt, w' | exfalso].
    unfold settle_group in Hrun.
    exec_inv Hrun; reflect_tests; simplify_eq; try congruence; lia.
  - intros w' Hrun.
    pose proof (groups_wf_step (SettleGroup ctx id) w Hwf) as Hwf'.
    unfold commit in Hwf'. simpl in Hwf'. rewrite Hrun in Hwf'.
    apply settle_group_ok in Hrun
      as (g & seen & Hg & Hc & Hfull & Hs & Hg' & _ & _ & Hlog & _).
    exists g. repeat split; try done; [by exists seen|..].
    all: assert (Hkeep : groups (store (run cs w')) !! id =
                         Some (with_settled true g))
      by (apply settled_run; [done | by rewrite Hg', lookup_insert_eq | done]).
    + by exists (with_settled true g).
    + by apply (settle_group_settled ctx2 id _ _ Hkeep).
    + intros Hc2. by apply (settle_group_settled ctx2 id _ _ Hkeep).
Qed.

(** In the scenario the creator's settlement goes through, marks the group
    settled and pays the 100; the creator's next attempt is rejected. *)
Lemma settle_group_once_witness :
  exists w',
    settle_group (member 1%N) 0 funded_group = Ok (tt, w') /\
    (settled <$> groups (store w') !! 0) = Some true /\
    snd <$> itxns w' = [Payment 1%N 100] /\
    settle_group (member 1%N) 0 w' = Abort (AssertFailed "Already settled").
Proof.
  assert (Hwf : wf (store funded_group)) by apply groups_wf_run, groups_wf_init.
  destruct (settle_group_once (member 1%N) 0 funded_group Hwf)
    as (_ & Hgoes & Hdone).
  destruct (Hgoes (mkGroup 1%N 100 4 100 false 2000 0)) as ([] & w' & Hrun).
  - vm_compute. reflexivity.
  - reflexivity.
  - vm_compute. discriminate.
  - reflexivity.
  - vm_compute. discriminate.
  - destruct (Hdone w' Hrun)
      as (g & Hg & _ & _ & _ & Hg' & (seen & Hlog) & Hafter).
    assert (g = mkGroup 1%N 100 4 100 false 2000 0) as ->
      by (vm_compute in Hg; congruence).
    destruct (Hafter [] (member 1%N)) as (_ & _ & Hagain).
    exists w'. repeat split.
    + exact Hrun.
    + by rewrite Hg', lookup_insert_eq.
    + rewrite Hlog, fmap_app. reflexivity.
    + by apply Hagain.
Defined.

Example settle_pays_the_total :
  snd <$> itxns (commit (settle_group (member 1%N) 0) funded_group) =
  [Payment 1%N 100].
Proof. vm_compute. reflexivity. Qed.



(** An overpayment on top of an earlier contribution accumulates. *)
Example contributions_accumulate :
  contribution_of (0, 2%N)
    (store (commit (contribute (member 2%N) 0 (mkPayment 99%N 40)) funded_group))
  = 65.
Proof. vm_compute. reflexivity. Qed.

(** *** Group creation, accounting and accessors *)

(** X7.  As long as the two counters stay within [UInt64], [create_group]
    goes through exactly when the member count is between 2 and 50, the
    total is positive, the deadline lies after the current time and the
    penalty rate is at most 1000.  It returns [next_group_id], which no
    stored group had (there [get_group_info] was failing with "Group not
    found"), stores an open group with no contribution for the caller,
    which [get_group_info] then reports, keeps every other group and pays
    nothing. *)
Theorem create_group_spec ctx total n dl rate descr w :
  wf (store w) ->
  next_group_id (store w) < MAX_UINT64 ->
  total_groups (store w) < MAX_UINT64 ->
  (succeeds (create_group ctx total n dl rate descr) w <->
     2 <= n <= 50 /\ 0 < total /\ latest_timestamp ctx < dl /\ rate <= 1000) /\
  (forall id w',
     create_group ctx total n dl rate descr w = Ok (id, w') ->
     id = next_group_id (store w) /\
     get_group_info id w = Abort (AssertFailed "Group not found") /\
     get_group_info id w' = Ok ((txn_sender ctx, total, n, 0, false), w') /\
     (forall id' g, groups (store w) !! id' = Some g ->
                    groups (store w') !! id' = Some g) /\
     next_group_id (store w') = id + 1 /\
     total_groups (store w') = total_groups (store w) + 1 /\
     itxns w' = itxns w).
Proof.
  intros Hwf Hnext Hcount. split.
  - split.
    + intros (id & w' & Hrun). unfold create_group in Hrun.
      exec_inv Hrun; lia.
    + intros (Hn & Htotal & Hdl & Hrate).
      destruct (create_group ctx total n dl rate descr w) as [[id w']|f] eqn:Hrun;
        [by exists id, w' | exfalso].
      unfold create_group in Hrun. exec_inv Hrun; lia.
  - intros id w' Hrun.
    assert (Hfresh : groups (store w) !! next_group_id (store w) = None).
    { destruct (groups (store w) !! next_group_id (store w)) as [g|] eqn:Hg;
        [|done]. apply Hwf in Hg. lia. }
    pose proof Hrun as Hrun'.
    apply create_group_ok in Hrun as (-> & _ & _ & Hg & _ & Hnext' & Hlog).
    repeat split; try done.
    + unfold get_group_info. unfold_machine. by rewrite Hfresh.
    + unfold get_group_info. unfold_machine. simpl.
      by rewrite Hg, lookup_insert_eq.
    + intros id' g Hid. rewrite Hg, lookup_insert_ne; [done|].
      intros <-. congruence.
    + unfold create_group in Hrun'. exec_inv Hrun'. done.
Qed.

Lemma create_group_spec_witness :
  succeeds (create_group (member 6%N) 90 3 2000 100 "Trip") funded_group.
Proof.
  apply (create_group_spec (member 6%N) 90 3 2000 100 "Trip" funded_group).
  - apply groups_wf_run, groups_wf_init.
  - vm_compute. reflexivity.
  - vm_compute. reflexivity.
  - repeat split; vm_compute; first [reflexivity | discriminate].
Defined.

Lemma map_sum_nonneg `{Countable K} (m : gmap K Z) :
  (forall k v, m !! k = Some v -> 0 <= v) -> 0 <= map_sum m.
Proof.
  induction m as [|k v m Hk IH] using map_ind; intros Hpos.
  - unfold map_sum. by rewrite map_fold_empty.
  - rewrite map_sum_fresh by done.
    assert (0 <= v) by (apply (Hpos k); apply lookup_insert_eq).
    assert (0 <= map_sum m); [|lia].
    apply IH. intros j x Hj. apply (Hpos j).
    rewrite lookup_insert_ne; [done|]. intros ->. congruence.
Qed.

Lemma map_sum_fmap_insert `{Countable K} {A} (f : A -> Z) (m : gmap K A) k x :
  map_sum (f <$> <[k := x]> m) =
  map_sum (f <$> m) - default 0 (f <$> m !! k) + f x.
Proof. by rewrite fmap_insert, map_sum_insert, lookup_fmap. Qed.

Lemma sound_init : sound init.
Proof.
  split; [apply groups_wf_init|]. split.
  - intros id g Hk. simpl in Hk. by rewrite lookup_empty in Hk.
  - intros id a v Hk. simpl in Hk. by rewrite lookup_empty in Hk.
Qed.

Lemma sound_step c w : sound (store w) -> sound (store (commit (exec c) w)).
Proof.
  intros (Hwf & Hg & Hc).
  split; [by apply groups_wf_step|].
  unfold commit.
  destruct c as [ctx total n dl rate descr|ctx id p|ctx id]; simpl.
  - unfold bind.
    destruct (create_group ctx total n dl rate descr w) as [[id w']|f] eqn:Hrun;
      simpl; [|by split].
    apply create_group_ok in Hrun as (-> & _ & Htotal & Hg' & Hc' & _).
    simpl. rewrite Hg', Hc'. split.
    + intros id g Hid.
      apply lookup_insert_Some in Hid as [[<- <-]|[_ Hid]]; simpl; [|eauto].
      repeat split; try lia; try discriminate.
    + intros id a v Hv. apply Hc in Hv as [g Hv].
      destruct (decide (next_group_id (store w) = id)) as [->|Hne].
      * rewrite lookup_insert_eq. eauto.
      * rewrite lookup_insert_ne by done. eauto.
  - destruct (contribute ctx id p w) as [[[] w']|f] eqn:Hrun; [|by split].
    apply contribute_ok in Hrun
      as (g & Hlook & Hs & _ & Hn & Hshare & Hc' & Hg' & _).
    rewrite Hg', Hc'.
    destruct (Hg id g Hlook) as (Htotal & Hsum & _).
    assert (0 <= pay_amount p).
    { destruct (Hwf id g Hlook) as [_ Hm].
      pose proof (Z.div_pos (total_amount g) (num_members g)). lia. }
    split.
    + intros id' g' Hid.
      apply lookup_insert_Some in Hid as [[<- <-]|[_ Hid]]; simpl; [|eauto].
      repeat split; try lia; try congruence.
    + intros id' a v Hv.
      assert (is_Some (groups (store w) !! id')) as [g' Hg2].
      { apply lookup_insert_Some in Hv as [[Heq _]|[_ Hv]]; [|eauto].
        injection Heq as <- _. eauto. }
      destruct (decide (id = id')) as [->|Hne].
      * rewrite lookup_insert_eq. eauto.
      * rewrite lookup_insert_ne by done. eauto.
  - destruct (settle_group ctx id w) as [[[] w']|f] eqn:Hrun; [|by split].
    apply settle_group_ok in Hrun
      as (g & seen & Hlook & _ & Hfull & _ & Hg' & Hc' & _).
    rewrite Hg', Hc'.
    destruct (Hg id g Hlook) as (Htotal & Hsum & _).
    split.
    + intros id' g' Hid.
      apply lookup_insert_Some in Hid as [[<- <-]|[_ Hid]]; simpl; [|eauto].
      repeat split; try lia.
    + intros id' a v Hv. apply Hc in Hv as [g' Hv].
      destruct (decide (id = id')) as [->|Hne].
      * rewrite lookup_insert_eq. eauto.
      * rewrite lookup_insert_ne by done. eauto.
Qed.

Lemma sound_run cs : forall w, sound (store w) -> sound (store (run cs w)).
Proof.
  induction cs as [|c cs IH]; intros w Hw; simpl; [done|].
  apply IH. by apply sound_step.
Qed.

Lemma in_escrow_nonneg s :
  sound s -> 0 <= map_sum (in_escrow <$> groups s).
Proof.
  intros (_ & Hg & _). apply map_sum_nonneg.
  intros id v Hv. rewrite lookup_fmap in Hv.
  destruct (groups s !! id) as [g|] eqn:Hlook; [|done].
  injection Hv as <-. destruct (Hg id g Hlook) as (? & ? & Hs).
  unfold in_escrow. destruct (settled g); [specialize (Hs eq_refl)|]; lia.
Qed.

(** One call moves the escrow by what it receives and what it pays. *)
Lemma escrow_step c w :
  sound (store w) ->
  let w' := commit (exec c) w in
  map_sum (in_escrow <$> groups (store w')) - map_sum (in_escrow <$> groups (store w)) =
    received c w - (total_paid (itxns w') - total_paid (itxns w)) /\
  total_split (store w') - total_split (store w) =
    total_paid (itxns w') - total_paid (itxns w).
Proof.
  intros (Hwf & Hg & Hc). unfold commit, received.
  destruct c as [ctx total n dl rate descr|ctx id p|ctx id]; simpl.
  - unfold bind.
    destruct (create_group ctx total n dl rate descr w) as [[id w']|f] eqn:Hrun;
      simpl; [|lia].
    pose proof Hrun as Hrun'.
    apply create_group_ok in Hrun as (-> & _ & _ & Hg' & _ & _ & Hlog).
    rewrite Hg', Hlog, map_sum_fmap_insert.
    assert (groups (store w) !! next_group_id (store w) = None) as ->.
    { destruct (groups (store w) !! next_group_id (store w)) as [g|] eqn:Hlook;
        [|done]. apply Hwf in Hlook. lia. }
    unfold create_group in Hrun'. exec_inv Hrun'. unfold in_escrow. simpl. lia.
  - destruct (contribute ctx id p w) as [[[] w']|f] eqn:Hrun; [|lia].
    pose proof Hrun as Hrun'.
    apply contribute_ok in Hrun
      as (g & Hlook & Hs & _ & _ & _ & _ & Hg' & _ & Hlog).
    rewrite Hg', Hlog, map_sum_fmap_insert, Hlook.
    unfold contribute in Hrun'. exec_inv Hrun'.
    unfold in_escrow. simpl. rewrite Hs. simpl. lia.
  - destruct (settle_group ctx id w) as [[[] w']|f] eqn:Hrun; [|lia].
    pose proof Hrun as Hrun'.
    apply settle_group_ok in Hrun
      as (g & seen & Hlook & _ & _ & Hs & Hg' & _ & _ & Hlog & _).
    rewrite Hg', Hlog, map_sum_fmap_insert, Hlook, total_paid_app.
    unfold settle_group in Hrun'. exec_inv Hrun'. simplify_eq.
    unfold in_escrow. simpl. rewrite Hs. simpl. lia.
Qed.

Lemma escrow_run cs : forall w,
  sound (store w) ->
  let w' := run cs w in
  map_sum (in_escrow <$> groups (store w')) - map_sum (in_escrow <$> groups (store w)) =
    contributed cs w - (total_paid (itxns w') - total_paid (itxns w)) /\
  total_split (store w') - total_split (store w) =
    total_paid (itxns w') - total_paid (itxns w).
Proof.
  induction cs as [|c cs IH]; intros w Hw; simpl; [lia|].
  destruct (escrow_step c w Hw) as [H1 H2].
  destruct (IH _ (sound_step c w Hw)) as [H3 H4].
  simpl in *. lia.
Qed.

(** X8.  The escrow never pays out more than it took in: after any
    sequence of calls from the empty contract, the contributions received,
    less the payments made, are exactly what the stored groups still hold
    (each group's contributions, less its total once settled), which is not
    negative; and [total_split] is the sum of the payments made. *)
Theorem escrow_covers_payouts (cs : list Call) :
  let w := run cs start in
  contributed cs start - total_paid (itxns w) =
    map_sum (in_escrow <$> groups (store w)) /\
  total_paid (itxns w) <= contributed cs start /\
  total_split (store w) = total_paid (itxns w).
Proof.
  destruct (escrow_run cs start sound_init) as [H1 H2].
  pose proof (in_escrow_nonneg _ (sound_run cs start sound_init)) as Hpos.
  simpl in *. rewrite fmap_empty, map_sum_empty in H1. lia.
Qed.

(** *** The contributions of a group *)

Lemma group_contributions_insert_same id a v s s' :
  contributions s' = <[(id, a) := v]> (contributions s) ->
  map_sum (group_contributions id s') =
  map_sum (group_contributions id s) - contribution_of (id, a) s + v.
Proof.
  intros Hs'. unfold group_contributions. rewrite Hs'.
  rewrite map_filter_insert_True by done.
  rewrite map_sum_insert. unfold contribution_of.
  destruct (contributions s !! (id, a)) as [x|] eqn:Hx.
  - by rewrite (map_lookup_filter_Some_2 _ _ _ _ Hx).
  - rewrite (map_lookup_filter_None_2 _ (contributions s) (id, a)); [done|].
    by left.
Qed.

Lemma group_contributions_insert_other id id' a v s s' :
  id' <> id ->
  contributions s' = <[(id', a) := v]> (contributions s) ->
  group_contributions id s' = group_contributions id s.
Proof.
  intros Hne Hs'. unfold group_contributions. rewrite Hs'.
  by apply map_filter_insert_not.
Qed.

Lemma group_contributions_none id s :
  (forall a v, contributions s !! (id, a) = Some v -> False) ->
  map_sum (group_contributions id s) = 0.
Proof.
  intros Hnone.
  assert (group_contributions id s = ∅) as ->; [|apply map_sum_empty].
  apply map_eq. intros [id' a]. rewrite lookup_empty.
  apply map_lookup_filter_None_2.
  destruct (contributions s !! (id', a)) as [v|] eqn:Hv; [right|by left].
  intros x [= <-]. simpl. intros ->. eauto.
Qed.

Lemma tallied_step c w :
  sound (store w) -> tallied (store w) -> tallied (store (commit (exec c) w)).
Proof.
  intros (Hwf & Hg & Hc) Ht. unfold commit.
  destruct c as [ctx total n dl rate descr|ctx id p|ctx id]; simpl.
  - unfold bind.
    destruct (create_group ctx total n dl rate descr w) as [[id w']|f] eqn:Hrun;
      simpl; [|done].
    apply create_group_ok in Hrun as (-> & _ & _ & Hg' & Hc' & _).
    intros id g Hid. rewrite Hg' in Hid.
    assert (group_contributions id (store w') = group_contributions id (store w))
      as -> by (unfold group_contributions; by rewrite Hc').
    apply lookup_insert_Some in Hid as [[<- <-]|[_ Hid]]; simpl; [|eauto].
    apply group_contributions_none. intros a v Hv.
    apply Hc in Hv as [g Hlook]. apply Hwf in Hlook. lia.
  - destruct (contribute ctx id p w) as [[[] w']|f] eqn:Hrun; [|done].
    apply contribute_ok in Hrun
      as (g & Hlook & _ & _ & _ & _ & Hc' & Hg' & _).
    intros id' g' Hid. rewrite Hg' in Hid.
    apply lookup_insert_Some in Hid as [[<- <-]|[Hne Hid]]; simpl.
    + rewrite (group_contributions_insert_same _ _ _ _ _ Hc').
      rewrite (Ht id g Hlook). lia.
    + rewrite (group_contributions_insert_other id' id _ _ _ _ Hne Hc'). eauto.
  - destruct (settle_group ctx id w) as [[[] w']|f] eqn:Hrun; [|done].
    apply settle_group_ok in Hrun
      as (g & seen & Hlook & _ & _ & _ & Hg' & Hc' & _).
    intros id' g' Hid. rewrite Hg' in Hid.
    assert (group_contributions id' (store w') = group_contributions id' (store w))
      as -> by (unfold group_contributions; by rewrite Hc').
    apply lookup_insert_Some in Hid as [[<- <-]|[_ Hid]]; simpl; eauto.
Qed.

Lemma tallied_run cs : forall w,
  sound (store w) -> tallied (store w) -> tallied (store (run cs w)).
Proof.
  induction cs as [|c cs IH]; intros w Hs Ht; simpl; [done|].
  apply IH; [by apply sound_step | by apply tallied_step].
Qed.

(** X9.  In every state the contract reaches, a group's [total_contributed]
    is the sum of the contributions recorded for its members. *)
Theorem contributions_add_up (cs : list Call) id g :
  groups (store (run cs start)) !! id = Some g ->
  map_sum (group_contributions id (store (run cs start))) = total_contributed g.
Proof.
  apply (tallied_run cs start sound_init).
  intros id' g' Hk. simpl in Hk. by rewrite lookup_empty in Hk.
Qed.

Lemma contributions_add_up_witness :
  map_sum (group_contributions 0 (store funded_group)) = 100.
Proof.
  apply (contributions_add_up split_bill 0 (mkGroup 1%N 100 4 100 false 2000 0)).
  vm_compute. reflexivity.
Defined.

(** X10.  After a contribution [get_contribution] reports, for the caller
    and the group, the earlier figure plus the payment, and for every other
    member or group what it reported before; for a member with no
    contribution box it reports zero instead of failing. *)
Theorem get_contribution_after_contribute ctx id p w w' :
  contribute ctx id p w = Ok (tt, w') ->
  get_contribution id (txn_sender ctx) w' =
    Ok (contribution_of (id, txn_sender ctx) (store w) + pay_amount p, w') /\
  (forall g m, (g, m) <> (id, txn_sender ctx) ->
     get_contribution g m w' = Ok (contribution_of (g, m) (store w), w')) /\
  (forall g m, contributions (store w') !! (g, m) = None ->
     get_contribution g m w' = Ok (0, w')).
Proof.
  intros Hrun.
  apply contribute_ok in Hrun as (g & _ & _ & _ & _ & _ & Hc' & _).
  unfold get_contribution, gets, contribution_of. repeat split.
  - by rewrite Hc', lookup_insert_eq.
  - intros g' m Hne. by rewrite Hc', lookup_insert_ne.
  - intros g' m ->. done.
Qed.

Lemma get_contribution_after_contribute_witness :
  get_contribution 0 2%N
    (commit (contribute (member 2%N) 0 (mkPayment 99%N 40)) funded_group) =
  Ok (65, commit (contribute (member 2%N) 0 (mkPayment 99%N 40)) funded_group).
Proof.
  destruct (get_contribution_after_contribute (member 2%N) 0 (mkPayment 99%N 40)
              funded_group
              (commit (contribute (member 2%N) 0 (mkPayment 99%N 40)) funded_group))
    as (Hget & _).
  - vm_compute. reflexivity.
  - etrans; [apply Hget | vm_compute; reflexivity].
Defined.

(** X11.  As long as [total_split] stays within [UInt64], [settle_group]
    goes through exactly when the group exists, the caller is its creator,
    the contributions cover the total and the group is not settled.  The
    checks fail in that order: a missing group before the caller, the caller
    before the funding, the funding before the settled flag. *)
Theorem settle_group_spec ctx id w :
  (forall g, groups (store w) !! id = Some g ->
             total_split (store w) + total_amount g <= MAX_UINT64) ->
  (succeeds (settle_group ctx id) w <->
     exists g,
       groups (store w) !! id = Some g /\
       txn_sender ctx = creator g /\
       total_amount g <= total_contributed g /\
       settled g = false) /\
  (groups (store w) !! id = None ->
   settle_group ctx id w = Abort (AssertFailed "Group not found")) /\
  (forall g, groups (store w) !! id = Some g ->
     (txn_sender ctx <> creator g ->
      settle_group ctx id w = Abort (AssertFailed "Only creator can settle")) /\
     (txn_sender ctx = creator g -> total_contributed g < total_amount g ->
      settle_group ctx id w = Abort (AssertFailed "Not fully funded"))).
Proof.
  intros Hsplit. split; [split|split].
  - intros ([] & w' & Hrun).
    apply settle_group_ok in Hrun as (g & seen & Hg & Hc & Hfull & Hs & _).
    by exists g.
  - intros (g & Hg & Hc & Hfull & Hs).
    specialize (Hsplit g Hg).
    destruct (settle_group ctx id w) as [[[] w']|f] eqn:Hrun;
      [by exists tt, w' | exfalso].
    unfold settle_group in Hrun.
    exec_inv Hrun; reflect_tests; simplify_eq; try congruence; lia.
  - intros Hg. unfold settle_group. unfold_machine. by rewrite Hg.
  - intros g Hg. split.
    + intros Hc. unfold settle_group. unfold_machine. simpl. rewrite Hg.
      apply N.eqb_neq in Hc. by rewrite Hc.
    + intros Hc Hlow. unfold settle_group. unfold_machine. simpl. rewrite Hg.
      apply N.eqb_eq in Hc. rewrite Hc.
      apply Z.leb_gt in Hlow. by rewrite Hlow.
Qed.

Lemma settle_group_spec_witness :
  succeeds (settle_group (member 1%N) 0) funded_group.
Proof.
  apply (settle_group_spec (member 1%N) 0 funded_group).
  - intros g Hg. vm_compute in Hg. injection Hg as <-. vm_compute. discriminate.
  - eexists. split; [vm_compute; reflexivity|].
    repeat split; vm_compute; first [reflexivity | discriminate].
Defined.

End ExpenseProofs.

(** ** The milestone fundraising escrow *)
Module FundraiseProofs.
Import Fundraise.

#[local] Arguments donation_of : simpl never.

Lemma create_campaign_ok ctx g n dl title descr w id w' :
  create_campaign ctx g n dl title descr w = Ok (id, w') ->
  id = next_campaign_id (store w) /\
  0 < g /\
  1 <= n <= 10 /\
  campaigns (store w') =
    <[id := mkCampaign (txn_sender ctx) g 0 n 0 dl true false]>
      (campaigns (store w)) /\
  donations (store w') = donations (store w) /\
  next_campaign_id (store w') = id + 1 /\
  itxns w' = itxns w.
Proof.
  intros Hrun. unfold create_campaign in Hrun.
  exec_inv Hrun; reflect_tests; repeat split; try done; lia.
Qed.

Lemma donate_ok ctx id p w w' :
  donate ctx id p w = Ok (tt, w') ->
  let key := (id, txn_sender ctx) in
  exists c,
    campaigns (store w) !! id = Some c /\
    active c = true /\
    pay_receiver p = current_application_address ctx /\
    0 < pay_amount p /\
    donations (store w') =
      <[key := donation_of key (store w) + pay_amount p]> (donations (store w)) /\
    campaigns (store w') =
      <[id := credited (pay_amount p) c]> (campaigns (store w)) /\
    next_campaign_id (store w') = next_campaign_id (store w) /\
    itxns w' = itxns w.
Proof.
  intros Hrun. unfold donate in Hrun.
  exec_inv Hrun; reflect_tests.
  all: eexists; repeat split; try done; try lia.
  all: unfold credited; simpl.
  all: match goal with H : (goal _ <=? _) = _ |- _ => by rewrite H end.
Qed.

(** What a release that goes through has done.  The payment is submitted
    while the store still holds the campaign as it was before the call. *)
Lemma release_milestone_ok ctx id w w' :
  release_milestone ctx id w = Ok (tt, w') ->
  exists c,
    campaigns (store w) !! id = Some c /\
    txn_sender ctx = creator c /\
    fully_funded c = true /\
    milestones_released c < num_milestones c /\
    num_milestones c <> 0 /\
    itxns w' =
      itxns w ++ [(store w, Payment (creator c) (goal c / num_milestones c))] /\
    campaigns (store w') = <[id := advanced c]> (campaigns (store w)) /\
    donations (store w') = donations (store w) /\
    next_campaign_id (store w') = next_campaign_id (store w).
Proof.
  intros Hrun. unfold release_milestone in Hrun.
  exec_inv Hrun; reflect_tests.
  all: eexists; repeat split; try done; try lia.
  all: unfold advanced; simpl.
  all: match goal with H : (_ + 1 =? _) = _ |- _ => by rewrite H end.
Qed.

(** What a refund that goes through has done: the payment is submitted
    when the donation record is already zero. *)
Lemma claim_refund_ok ctx id w w' :
  claim_refund ctx id w = Ok (tt, w') ->
  let key := (id, txn_sender ctx) in
  exists c amount seen,
    campaigns (store w) !! id = Some c /\
    deadline c < latest_timestamp ctx /\
    fully_funded c = false /\
    donations (store w) !! key = Some amount /\
    0 < amount /\
    donations (store w') = <[key := 0]> (donations (store w)) /\
    campaigns (store w') = campaigns (store w) /\
    next_campaign_id (store w') = next_campaign_id (store w) /\
    itxns w' = itxns w ++ [(seen, Payment (txn_sender ctx) amount)] /\
    seen = store w'.
Proof.
  intros Hrun. unfold claim_refund in Hrun.
  exec_inv Hrun; reflect_tests.
  eexists _, _, _; repeat split; try done; lia.
Qed.

Lemma campaigns_wf_init : wf init.
Proof. intros id c Hc. simpl in Hc. by rewrite lookup_empty in Hc. Qed.

Lemma submitted_app (w w' : World Store) l :
  itxns w' = itxns w ++ l -> submitted w w' = snd <$> l.
Proof. unfold submitted. intros ->. by rewrite drop_app_length. Qed.

Lemma advanced_wf c :
  1 <= num_milestones c <= 10 ->
  0 <= milestones_released c < num_milestones c ->
  active c = true ->
  0 <= milestones_released (advanced c) <= num_milestones (advanced c) /\
  (active (advanced c) = true <->
   milestones_released (advanced c) < num_milestones (advanced c)).
Proof.
  intros Hn Hr Ha. unfold advanced. simpl.
  destruct (milestones_released c + 1 =? num_milestones c) eqn:E; simpl.
  - split; [lia|]. split; [done | lia].
  - split; [lia|]. split; [lia | done].
Qed.

Lemma campaigns_wf_step call w : wf (store w) -> wf (store (commit (exec call) w)).
Proof.
  intros Hwf. unfold commit.
  destruct call as [ctx g n dl title descr|ctx id p|ctx id|ctx id]; simpl.
  - unfold bind at 1.
    destruct (create_campaign ctx g n dl title descr w) as [[id w']|f] eqn:Hrun;
      [|done].
    apply create_campaign_ok in Hrun as (-> & _ & Hn & Hc & _ & Hnext & _).
    simpl. intros id c Hid. rewrite Hc in Hid. rewrite Hnext.
    apply lookup_insert_Some in Hid as [[<- <-]|[_ Hid]]; simpl.
    + repeat split; try done; lia.
    + apply Hwf in Hid. intuition lia.
  - destruct (donate ctx id p w) as [[[] w']|f] eqn:Hrun; [|done].
    apply donate_ok in Hrun as (c & Hc & _ & _ & _ & _ & Hc' & Hnext & _).
    intros id' c' Hid. rewrite Hc' in Hid. rewrite Hnext.
    apply lookup_insert_Some in Hid as [[<- <-]|[_ Hid]]; [|eauto].
    apply Hwf in Hc. unfold credited. simpl.
    by destruct (goal c <=? raised c + pay_amount p).
  - destruct (release_milestone ctx id w) as [[[] w']|f] eqn:Hrun; [|done].
    apply release_milestone_ok in Hrun
      as (c & Hc & _ & _ & Hlt & _ & _ & Hc' & _ & Hnext).
    intros id' c' Hid. rewrite Hc' in Hid. rewrite Hnext.
    apply lookup_insert_Some in Hid as [[<- <-]|[_ Hid]]; [|eauto].
    apply Hwf in Hc as (Hid & Hn & Hr & Ha).
    assert (num_milestones (advanced c) = num_milestones c) as Hsame
      by (unfold advanced; simpl; by destruct (_ =? _)).
    split; [done|]. split; [by rewrite Hsame|].
    apply advanced_wf; [done | lia | by apply Ha].
  - destruct (claim_refund ctx id w) as [[[] w']|f] eqn:Hrun; [|done].
    apply claim_refund_ok in Hrun
      as (c & a & seen & _ & _ & _ & _ & _ & _ & Hc' & Hnext & _).
    intros id' c' Hid. rewrite Hc' in Hid. rewrite Hnext. eauto.
Qed.

Lemma campaigns_wf_run cs : forall w, wf (store w) -> wf (store (run cs w)).
Proof.
  induction cs as [|c cs IH]; intros w Hw; simpl; [done|].
  apply IH. by apply campaigns_wf_step.
Qed.

(** What one call can do to a stored campaign: its creator, goal and
    milestone count stay, [fully_funded] never goes back, and the counter
    moves only with a release, by one, paying [goal // num_milestones]. *)
Lemma campaign_step call w id c :
  wf (store w) ->
  campaigns (store w) !! id = Some c ->
  exists c',
    campaigns (store (commit (exec call) w)) !! id = Some c' /\
    creator c' = creator c /\
    goal c' = goal c /\
    num_milestones c' = num_milestones c /\
    (fully_funded c = true -> fully_funded c' = true) /\
    match release_of id call w with
    | Some l =>
        l = [Payment (creator c) (goal c / num_milestones c)] /\
        milestones_released c' = milestones_released c + 1 /\
        fully_funded c' = true
    | None => milestones_released c' = milestones_released c
    end.
Proof.
  intros Hwf Hc. unfold commit.
  destruct call as [ctx g n dl title descr|ctx id' p|ctx id'|ctx id']; simpl.
  - unfold bind at 1.
    destruct (create_campaign ctx g n dl title descr w) as [[k w']|f] eqn:Hrun;
      [|by exists c].
    apply create_campaign_ok in Hrun as (-> & _ & _ & Hc' & _).
    simpl. exists c. rewrite Hc', lookup_insert_ne; [done|].
    apply Hwf in Hc. lia.
  - destruct (donate ctx id' p w) as [[[] w']|f] eqn:Hrun; [|by exists c].
    apply donate_ok in Hrun as (c0 & Hc0 & _ & _ & _ & _ & Hc' & _).
    rewrite Hc'. destruct (decide (id' = id)) as [->|Hne].
    + rewrite lookup_insert_eq. assert (c0 = c) as -> by congruence.
      exists (credited (pay_amount p) c). unfold credited. simpl.
      destruct (goal c <=? raised c + pay_amount p); by repeat split.
    + rewrite lookup_insert_ne by done. by exists c.
  - destruct (bool_decide (id' = id)) eqn:Hid.
    + apply bool_decide_eq_true in Hid as ->.
      destruct (release_milestone ctx id w) as [[[] w']|f] eqn:Hrun;
        [|by exists c].
      apply release_milestone_ok in Hrun
        as (c0 & Hc0 & _ & Hff & _ & _ & Hlog & Hc' & _).
      assert (c0 = c) as -> by congruence.
      exists (advanced c). rewrite Hc', lookup_insert_eq.
      rewrite (submitted_app _ _ _ Hlog).
      unfold advanced. simpl.
      destruct (milestones_released c + 1 =? num_milestones c); by repeat split.
    + apply bool_decide_eq_false in Hid.
      destruct (release_milestone ctx id' w) as [[[] w']|f] eqn:Hrun;
        [|by exists c].
      apply release_milestone_ok in Hrun as (c0 & _ & _ & _ & _ & _ & _ & Hc' & _).
      rewrite Hc', lookup_insert_ne by done. by exists c.
  - destruct (claim_refund ctx id' w) as [[[] w']|f] eqn:Hrun; [|by exists c].
    apply claim_refund_ok in Hrun
      as (c0 & a & seen & _ & _ & _ & _ & _ & _ & Hc' & _).
    rewrite Hc'. by exists c.
Qed.

(** The same along a run. *)
Lemma campaign_run cs : forall w id c,
  wf (store w) ->
  campaigns (store w) !! id = Some c ->
  exists c',
    campaigns (store (run cs w)) !! id = Some c' /\
    creator c' = creator c /\
    goal c' = goal c /\
    num_milestones c' = num_milestones c /\
    (fully_funded c = true -> fully_funded c' = true) /\
    releases id cs w =
      replicate (length (releases id cs w))
        [Payment (creator c) (goal c / num_milestones c)] /\
    milestones_released c' =
      milestones_released c + Z.of_nat (length (releases id cs w)) /\
    (releases id cs w <> [] -> fully_funded c' = true).
Proof.
  induction cs as [|call cs IH]; intros w id c Hwf Hc; simpl.
  - exists c. repeat split; try done. lia.
  - destruct (campaign_step call w id c Hwf Hc)
      as (c1 & Hc1 & Hcr & Hg & Hn & Hff & Hrel).
    destruct (IH _ id c1 (campaigns_wf_step call w Hwf) Hc1)
      as (c' & Hc' & Hcr' & Hg' & Hn' & Hff' & Hlog & Hcount & Hne).
    exists c'. rewrite Hcr, Hg, Hn in *.
    destruct (release_of id call w) as [l|].
    + destruct Hrel as (-> & Hr & Hf1). simpl.
      repeat split; try done; try congruence; try tauto.
      all: try (by f_equal); try lia; try (intros _; tauto).
    + repeat split; try done; try congruence; try tauto.
Qed.

Lemma paid_replicate n r a :
  paid (concat (replicate n [Payment r a])) = Z.of_nat n * a.
Proof. induction n as [|n IH]; simpl; [lia|]. rewrite IH. lia. Qed.

(** A release on a campaign with no milestone left is rejected: the creator
    is told that all milestones are released, anybody else that only the
    creator may call. *)
Lemma release_exhausted ctx id w c :
  campaigns (store w) !! id = Some c ->
  num_milestones c <= milestones_released c ->
  (exists f, release_milestone ctx id w = Abort f) /\
  (txn_sender ctx = creator c -> fully_funded c = true ->
   release_milestone ctx id w = Abort (AssertFailed "All milestones released")) /\
  (txn_sender ctx <> creator c ->
   release_milestone ctx id w = Abort (AssertFailed "Only creator")).
Proof.
  intros Hc Hall. repeat split.
  - destruct (release_milestone ctx id w) as [[[] w']|f] eqn:Hrun; [|by exists f].
    apply release_milestone_ok in Hrun as (c0 & Hc0 & _ & _ & Hlt & _).
    assert (c0 = c) as -> by congruence. lia.
  - intros Hs Hff. unfold release_milestone. unfold_machine. simpl.
    rewrite Hc, Hff. apply N.eqb_eq in Hs. rewrite Hs.
    apply Z.ltb_ge in Hall. by rewrite Hall.
  - intros Hs. unfold release_milestone. unfold_machine. simpl.
    rewrite Hc. apply N.eqb_neq in Hs. by rewrite Hs.
Qed.

(** A refund on a campaign that was ever funded is rejected. *)
Lemma claim_refund_funded ctx id w c :
  campaigns (store w) !! id = Some c -> fully_funded c = true ->
  exists f, claim_refund ctx id w = Abort f.
Proof.
  intros Hc Hff.
  destruct (claim_refund ctx id w) as [[[] w']|f] eqn:Hrun; [|by exists f].
  apply claim_refund_ok in Hrun as (c0 & a & seen & Hc0 & _ & Hnf & _).
  congruence.
Qed.

(** C3, as the code has it.  Along any run from a state in which a campaign
    with goal [g] and [n] milestones has released none, every release that
    goes through submits exactly one payment of [g // n] to the creator and
    advances [milestones_released] by one, so that the counter equals the
    number of releases and the amount paid is that number times [g // n].
    Once [n] releases went through the campaign is inactive, [n * (g // n)]
    was paid, which is at most [g], and every further release is rejected:
    with the state conflict "All milestones released" when the creator
    calls, and with "Only creator" when anybody else does. *)
Theorem milestone_release_cycle id c0 w0 cs :
  wf (store w0) ->
  campaigns (store w0) !! id = Some c0 ->
  milestones_released c0 = 0 ->
  let g := goal c0 in
  let n := num_milestones c0 in
  let w := run cs w0 in
  let done := releases id cs w0 in
  let k := Z.of_nat (length done) in
  exists c,
    campaigns (store w) !! id = Some c /\
    done = replicate (length done) [Payment (creator c0) (g / n)] /\
    milestones_released c = k /\
    paid (concat done) = k * (g / n) /\
    k <= n /\
    (k = n ->
     active c = false /\
     n * (g / n) <= g /\
     forall ctx,
       (exists f, release_milestone ctx id w = Abort f) /\
       (txn_sender ctx = creator c0 ->
        release_milestone ctx id w =
          Abort (AssertFailed "All milestones released")) /\
       (txn_sender ctx <> creator c0 ->
        release_milestone ctx id w = Abort (AssertFailed "Only creator"))).
Proof.
  intros Hwf Hc0 Hr0 g n w done k.
  destruct (campaign_run cs w0 id c0 Hwf Hc0)
    as (c & Hc & Hcr & Hg & Hn & _ & Hlog & Hcount & Hff).
  fold done in Hlog, Hcount, Hff. fold g n in Hlog.
  destruct (campaigns_wf_run cs w0 Hwf id c Hc) as (_ & Hn1 & Hrel & Hact).
  exists c. repeat split; try done.
  - lia.
  - by rewrite Hlog, paid_replicate.
  - unfold k, n. lia.
  - destruct (active c) eqn:Ha; [|done].
    assert (milestones_released c < num_milestones c) by by apply Hact.
    unfold k, n in *. lia.
  - unfold n. rewrite <- Hn. apply Z.mul_div_le. lia.
  - apply (release_exhausted ctx id w c Hc). unfold k, n in *. lia.
  - intros Hs. apply (release_exhausted ctx id w c Hc).
    + unfold k, n in *. lia.
    + congruence.
    + apply Hff. destruct done; [|done]. unfold k, n in *. simpl in *. lia.
  - intros Hs. apply (release_exhausted ctx id w c Hc).
    + unfold k, n in *. lia.
    + congruence.
Qed.

Lemma milestone_release_cycle_witness :
  exists c,
    campaigns (store released_campaign) !! 0 = Some c /\
    milestones_released c = 3 /\
    paid (concat (releases 0 three_releases funded_campaign)) = 3 * (100 / 3) /\
    active c = false /\
    release_milestone (party 1%N 1600) 0 released_campaign =
      Abort (AssertFailed "All milestones released").
Proof.
  assert (Hwf : wf (store funded_campaign))
    by apply campaigns_wf_run, campaigns_wf_init.
  assert (Hc0 : campaigns (store funded_campaign) !! 0 =
                Some (mkCampaign 1%N 100 100 3 0 2000 true true))
    by (vm_compute; reflexivity).
  destruct (milestone_release_cycle 0 _ funded_campaign three_releases
              Hwf Hc0 eq_refl)
    as (c & Hc & _ & Hrel & Hpaid & _ & Hdone).
  assert (Hk : Z.of_nat (length (releases 0 three_releases funded_campaign)) = 3)
    by (vm_compute; reflexivity).
  rewrite Hk in Hrel, Hpaid.
  destruct (Hdone Hk) as (Hact & _ & Hfurther).
  destruct (Hfurther (party 1%N 1600)) as (_ & Hcreator & _).
  exists c. repeat split; try done.
Defined.

(** After the three releases of the scenario a release called by somebody
    other than the creator fails on the authorization check: the failure is
    not a state conflict. *)
Lemma further_release_by_other_caller :
  length (releases 0 three_releases funded_campaign) = 3%nat /\
  release_milestone (party 2%N 1600) 0 released_campaign =
    Abort (AssertFailed "Only creator") /\
  classify (AssertFailed "Only creator") = Authorization /\
  classify (AssertFailed "Only creator") <> StateConflict.
Proof. repeat split; try (vm_compute; reflexivity). vm_compute. discriminate. Qed.

Example three_releases_pay_33_each :
  snd <$> itxns released_campaign =
  [Payment 1%N 33; Payment 1%N 33; Payment 1%N 33].
Proof. vm_compute. reflexivity. Qed.

(** C7.  A campaign that is fully funded stays fully funded whatever calls
    follow, donations, releases and refund claims included. *)
Theorem fully_funded_is_permanent id c w cs :
  wf (store w) ->
  campaigns (store w) !! id = Some c ->
  fully_funded c = true ->
  exists c',
    campaigns (store (run cs w)) !! id = Some c' /\ fully_funded c' = true.
Proof.
  intros Hwf Hc Hff.
  destruct (campaign_run cs w id c Hwf Hc) as (c' & Hc' & _ & _ & _ & Hkeep & _).
  exists c'. split; [done | by apply Hkeep].
Qed.

Lemma fully_funded_is_permanent_witness :
  exists c',
    campaigns (store (run three_releases funded_campaign)) !! 0 = Some c' /\
    fully_funded c' = true.
Proof.
  apply (fully_funded_is_permanent 0 (mkCampaign 1%N 100 100 3 0 2000 true true)).
  - apply campaigns_wf_run, campaigns_wf_init.
  - vm_compute. reflexivity.
  - reflexivity.
Defined.

(** Every single call keeps the flag. *)
Lemma fully_funded_kept_by_each_call call w id c :
  wf (store w) ->
  campaigns (store w) !! id = Some c ->
  fully_funded c = true ->
  exists c',
    campaigns (store (commit (exec call) w)) !! id = Some c' /\
    fully_funded c' = true.
Proof.
  intros Hwf Hc Hff.
  destruct (campaign_step call w id c Hwf Hc) as (c' & Hc' & _ & _ & _ & Hkeep & _).
  exists c'. split; [done | by apply Hkeep].
Qed.

(** C10.  [donate] never looks at the deadline: whatever the time of the
    call, a positive payment to the application for an active campaign is
    accepted (as long as the three sums it computes stay within [UInt64]).
    When it lifts [raised] to the goal the campaign is stored as fully
    funded, and from then on every refund claim on it is rejected. *)
Theorem donate_ignores_deadline ctx id p w c :
  wf (store w) ->
  campaigns (store w) !! id = Some c ->
  active c = true ->
  pay_receiver p = current_application_address ctx ->
  0 < pay_amount p ->
  donation_of (id, txn_sender ctx) (store w) + pay_amount p <= MAX_UINT64 ->
  raised c + pay_amount p <= MAX_UINT64 ->
  total_raised (store w) + pay_amount p <= MAX_UINT64 ->
  exists w',
    donate ctx id p w = Ok (tt, w') /\
    campaigns (store w') !! id = Some (credited (pay_amount p) c) /\
    (goal c <= raised c + pay_amount p ->
     fully_funded (credited (pay_amount p) c) = true /\
     forall cs ctx2, exists f, claim_refund ctx2 id (run cs w') = Abort f).
Proof.
  intros Hwf Hc Hact Hrecv Hamt Hd Hr Ht.
  destruct (donate ctx id p w) as [[[] w']|f] eqn:Hrun.
  - exists w'. split; [done|].
    pose proof (campaigns_wf_step (Donate ctx id p) w Hwf) as Hwf'.
    unfold commit in Hwf'. simpl in Hwf'. rewrite Hrun in Hwf'.
    apply donate_ok in Hrun as (c0 & Hc0 & _ & _ & _ & _ & Hc' & _).
    assert (c0 = c) as -> by congruence.
    assert (Hnew : campaigns (store w') !! id = Some (credited (pay_amount p) c))
      by by rewrite Hc', lookup_insert_eq.
    split; [done|]. intros Hgoal.
    assert (Hff : fully_funded (credited (pay_amount p) c) = true).
    { unfold credited. simpl. apply Z.leb_le in Hgoal. by rewrite Hgoal. }
    split; [done|]. intros cs ctx2.
    destruct (campaign_run cs w' id _ Hwf' Hnew) as (c' & Hc2 & _ & _ & _ & Hkeep & _).
    apply (claim_refund_funded ctx2 id _ c' Hc2). by apply Hkeep.
  - exfalso. unfold donate in Hrun.
    exec_inv Hrun; reflect_tests; simplify_eq; try congruence; lia.
Qed.

Lemma donate_ignores_deadline_witness :
  exists w',
    donate (party 3%N 3000) 0 (mkPayment 99%N 40) lapsed_campaign = Ok (tt, w') /\
    forall cs ctx2, exists f, claim_refund ctx2 0 (run cs w') = Abort f.
Proof.
  destruct (donate_ignores_deadline (party 3%N 3000) 0 (mkPayment 99%N 40)
              lapsed_campaign (mkCampaign 1%N 100 60 3 0 2000 true false))
    as (w' & Hrun & _ & Hclosed).
  - apply campaigns_wf_run, campaigns_wf_init.
  - vm_compute. reflexivity.
  - reflexivity.
  - reflexivity.
  - reflexivity.
  - vm_compute. discriminate.
  - vm_compute. discriminate.
  - vm_compute. discriminate.
  - exists w'. split; [done|]. apply Hclosed. vm_compute. discriminate.
Defined.

(** Before the late donation the first donor could have claimed a refund. *)
Example refund_open_before_late_donation :
  snd <$> itxns (commit (claim_refund (party 2%N 3500) 0) lapsed_campaign) =
  [Payment 2%N 60].
Proof. vm_compute. reflexivity. Qed.

(** [claim_refund] has zeroed the donation when it submits the payment. *)
Lemma claim_refund_zeroes_first ctx id w w' :
  claim_refund ctx id w = Ok (tt, w') ->
  exists seen amount,
    itxns w' = itxns w ++ [(seen, Payment (txn_sender ctx) amount)] /\
    donations (store w) !! (id, txn_sender ctx) = Some amount /\
    donations seen !! (id, txn_sender ctx) = Some 0.
Proof.
  intros Hrun.
  apply claim_refund_ok in Hrun
    as (c & a & seen & _ & _ & _ & Ha & _ & Hd & _ & _ & Hlog & ->).
  exists (store w'), a. repeat split; try done.
  by rewrite Hd, lookup_insert_eq.
Qed.

(** [release_milestone] submits the payment before it records the release:
    the store the payment is submitted against is the store the call found. *)
Lemma release_milestone_pays_first ctx id w w' :
  release_milestone ctx id w = Ok (tt, w') ->
  exists c amount,
    campaigns (store w) !! id = Some c /\
    itxns w' = itxns w ++ [(store w, Payment (creator c) amount)] /\
    (milestones_released <$> campaigns (store w') !! id) =
      Some (milestones_released c + 1).
Proof.
  intros Hrun.
  apply release_milestone_ok in Hrun as (c & Hc & _ & _ & _ & _ & Hlog & Hc' & _).
  exists c, (goal c / num_milestones c). repeat split; try done.
  rewrite Hc', lookup_insert_eq. unfold advanced. simpl.
  by destruct (_ =? _).
Qed.

(** C1, on [release_milestone].  In the funded campaign of the scenario the
    creator's first release submits its payment of 33 against a store that
    still records no released milestone; the counter is written afterwards. *)
Theorem release_milestone_transfer_precedes_mark :
  exists w',
    release_milestone (party 1%N 1300) 0 funded_campaign = Ok (tt, w') /\
    itxns w' = [(store funded_campaign, Payment 1%N 33)] /\
    (milestones_released <$> campaigns (store funded_campaign) !! 0) = Some 0 /\
    (milestones_released <$> campaigns (store w') !! 0) = Some 1.
Proof.
  eexists. repeat split; vm_compute; reflexivity.
Qed.
(** *** Campaign creation, accounting and refunds *)

(** X12.  As long as the two counters stay within [UInt64],
    [create_campaign] goes through exactly when the goal is positive, the
    milestone count is between 1 and 10 and the deadline lies after the
    current time.  It returns [next_campaign_id], which no stored campaign
    had, stores an active, unfunded campaign of the caller with nothing
    raised or released, which [get_campaign_info] then reports, keeps every
    other campaign and every donation, and pays nothing. *)
Theorem create_campaign_spec ctx g n dl title descr w :
  wf (store w) ->
  next_campaign_id (store w) < MAX_UINT64 ->
  total_campaigns (store w) < MAX_UINT64 ->
  (succeeds (create_campaign ctx g n dl title descr) w <->
     0 < g /\ 1 <= n <= 10 /\ latest_timestamp ctx < dl) /\
  (forall id w',
     create_campaign ctx g n dl title descr w = Ok (id, w') ->
     id = next_campaign_id (store w) /\
     get_campaign_info id w = Abort (AssertFailed "Campaign not found") /\
     get_campaign_info id w' = Ok ((txn_sender ctx, g, 0, n, 0, true), w') /\
     (fully_funded <$> campaigns (store w') !! id) = Some false /\
     (forall id' c, campaigns (store w) !! id' = Some c ->
                    campaigns (store w') !! id' = Some c) /\
     donations (store w') = donations (store w) /\
     itxns w' = itxns w).
Proof.
  intros Hwf Hnext Hcount. split.
  - split.
    + intros (id & w' & Hrun). unfold create_campaign in Hrun.
      exec_inv Hrun; lia.
    + intros (Hg & Hn & Hdl).
      destruct (create_campaign ctx g n dl title descr w) as [[id w']|f] eqn:Hrun;
        [by exists id, w' | exfalso].
      unfold create_campaign in Hrun. exec_inv Hrun; lia.
  - intros id w' Hrun.
    assert (Hfresh : campaigns (store w) !! next_campaign_id (store w) = None).
    { destruct (campaigns (store w) !! next_campaign_id (store w)) as [c|] eqn:Hc;
        [|done]. apply Hwf in Hc. lia. }
    apply create_campaign_ok in Hrun as (-> & _ & _ & Hc & Hd & _ & Hlog).
    repeat split; try done.
    + unfold get_campaign_info. unfold_machine. by rewrite Hfresh.
    + unfold get_campaign_info. unfold_machine. simpl.
      by rewrite Hc, lookup_insert_eq.
    + by rewrite Hc, lookup_insert_eq.
    + intros id' c Hid. rewrite Hc, lookup_insert_ne; [done|].
      intros <-. congruence.
Qed.

Lemma create_campaign_spec_witness :
  succeeds (create_campaign (party 4%N 1000) 500 5 2000 "Lab" "New lab")
    funded_campaign.
Proof.
  apply (create_campaign_spec (party 4%N 1000) 500 5 2000 "Lab" "New lab"
           funded_campaign).
  - apply campaigns_wf_run, campaigns_wf_init.
  - vm_compute. reflexivity.
  - vm_compute. reflexivity.
  - repeat split; vm_compute; first [reflexivity | discriminate].
Defined.

Lemma consistent_init : consistent init.
Proof.
  split; [apply campaigns_wf_init|]. split.
  - intros id c Hk. simpl in Hk. by rewrite lookup_empty in Hk.
  - repeat split; vm_compute; reflexivity.
Qed.

Lemma raised_sum_insert (m : gmap Z Campaign) id c :
  map_sum (raised <$> <[id := c]> m) =
  map_sum (raised <$> m) - default 0 (raised <$> m !! id) + raised c.
Proof. by rewrite fmap_insert, map_sum_insert, lookup_fmap. Qed.

Lemma consistent_step call w :
  consistent (store w) -> consistent (store (commit (exec call) w)).
Proof.
  intros (Hwf & Hc & Htotal & Hcount & Hsize).
  split; [by apply campaigns_wf_step|].
  unfold commit.
  destruct call as [ctx g n dl title descr|ctx id p|ctx id|ctx id]; simpl.
  - unfold bind.
    destruct (create_campaign ctx g n dl title descr w) as [[id w']|f] eqn:Hrun;
      simpl; [|done].
    assert (Hfresh : campaigns (store w) !! next_campaign_id (store w) = None).
    { destruct (campaigns (store w) !! next_campaign_id (store w)) as [c|] eqn:Hk;
        [|done]. apply Hwf in Hk. lia. }
    unfold create_campaign in Hrun. exec_inv Hrun.
    rewrite raised_sum_insert, Hfresh, map_size_insert_None by done.
    simpl. split; [|repeat split; lia].
    intros k c Hid.
    apply lookup_insert_Some in Hid as [[<- <-]|[_ Hid]]; simpl; [|eauto].
    repeat split; try lia; try discriminate.
  - destruct (donate ctx id p w) as [[[] w']|f] eqn:Hrun; [|done].
    pose proof Hrun as Hrun'.
    apply donate_ok in Hrun as (c & Hlook & _ & _ & Hamt & _ & Hc' & _).
    destruct (Hc id c Hlook) as (Hgoal & Hraised & Hff).
    assert (Hcred : raised (credited (pay_amount p) c) = raised c + pay_amount p).
    { unfold credited. simpl. by destruct (_ <=? _). }
    rewrite Hc'. rewrite raised_sum_insert, Hlook, Hcred.
    rewrite map_size_insert_Some by done. simpl.
    split; [|unfold donate in Hrun'; exec_inv Hrun'; repeat split; lia].
    intros id' c' Hid.
    apply lookup_insert_Some in Hid as [[<- <-]|[_ Hid]]; [|eauto].
    rewrite Hcred. unfold credited. simpl.
    destruct (goal c <=? raised c + pay_amount p) eqn:E; simpl.
    + repeat split; try lia.
    + repeat split; try lia.
      * intros Hf. apply Hff in Hf. lia.
  - destruct (release_milestone ctx id w) as [[[] w']|f] eqn:Hrun; [|done].
    pose proof Hrun as Hrun'.
    apply release_milestone_ok in Hrun as (c & Hlook & _ & _ & _ & _ & _ & Hc' & _).
    destruct (Hc id c Hlook) as (Hgoal & Hraised & Hff).
    assert (Hadv : raised (advanced c) = raised c /\ goal (advanced c) = goal c /\
                   fully_funded (advanced c) = fully_funded c).
    { unfold advanced. simpl. by destruct (_ =? _). }
    destruct Hadv as (Hr & Hg & Hf).
    rewrite Hc'. rewrite raised_sum_insert, Hlook, Hr.
    rewrite map_size_insert_Some by done. simpl.
    split; [|unfold release_milestone in Hrun'; exec_inv Hrun'; repeat split; lia].
    intros id' c' Hid.
    apply lookup_insert_Some in Hid as [[<- <-]|[_ Hid]]; [|eauto].
    by rewrite Hr, Hg, Hf.
  - destruct (claim_refund ctx id w) as [[[] w']|f] eqn:Hrun; [|done].
    unfold claim_refund in Hrun. exec_inv Hrun. done.
Qed.

Lemma consistent_run cs : forall w,
  consistent (store w) -> consistent (store (run cs w)).
Proof.
  induction cs as [|c cs IH]; intros w Hw; simpl; [done|].
  apply IH. by apply consistent_step.
Qed.

Lemma given_step call w :
  total_raised (store (commit (exec call) w)) =
  total_raised (store w) + given call w.
Proof.
  unfold commit, given.
  destruct call as [ctx g n dl title descr|ctx id p|ctx id|ctx id]; simpl.
  - unfold bind.
    destruct (create_campaign ctx g n dl title descr w) as [[id w']|f] eqn:Hrun;
      simpl; [|lia].
    unfold create_campaign in Hrun. exec_inv Hrun. lia.
  - destruct (donate ctx id p w) as [[[] w']|f] eqn:Hrun; [|lia].
    unfold donate in Hrun. exec_inv Hrun; lia.
  - destruct (release_milestone ctx id w) as [[[] w']|f] eqn:Hrun; [|lia].
    unfold release_milestone in Hrun. exec_inv Hrun; lia.
  - destruct (claim_refund ctx id w) as [[[] w']|f] eqn:Hrun; [|lia].
    unfold claim_refund in Hrun. exec_inv Hrun. lia.
Qed.

Lemma given_run cs : forall w,
  total_raised (store (run cs w)) = total_raised (store w) + donated cs w.
Proof.
  induction cs as [|c cs IH]; intros w; simpl; [lia|].
  rewrite IH, given_step. lia.
Qed.

(** X13.  In every state the contract reaches a campaign has a positive
    goal, between one and ten milestones of which it has released at most
    all, and is fully funded exactly when what it raised reaches the goal,
    and active exactly while a milestone is left to release. *)
Theorem campaign_invariants (cs : list Call) id c :
  campaigns (store (run cs start)) !! id = Some c ->
  0 < goal c /\
  0 <= raised c /\
  1 <= num_milestones c <= 10 /\
  0 <= milestones_released c <= num_milestones c /\
  (fully_funded c = true <-> goal c <= raised c) /\
  (active c = true <-> milestones_released c < num_milestones c).
Proof.
  intros Hc.
  destruct (consistent_run cs start consistent_init) as (Hwf & Hinv & _).
  destruct (Hwf id c Hc) as (_ & Hn & Hr & Ha).
  destruct (Hinv id c Hc) as (Hg & Hraised & Hff).
  done.
Qed.

Lemma campaign_invariants_witness :
  exists c,
    campaigns (store released_campaign) !! 0 = Some c /\
    (fully_funded c = true <-> goal c <= raised c) /\
    (active c = true <-> milestones_released c < num_milestones c).
Proof.
  exists (mkCampaign 1%N 100 100 3 3 2000 false true).
  assert (Hc : campaigns (store (run (campaign_history ++ three_releases) start))
               !! 0 = Some (mkCampaign 1%N 100 100 3 3 2000 false true))
    by (vm_compute; reflexivity).
  destruct (campaign_invariants _ 0 _ Hc) as (_ & _ & _ & _ & Hff & Hact).
  split; [vm_compute; reflexivity | by split].
Defined.

(** X14.  After any sequence of calls from the empty contract,
    [total_raised] is the sum of the donations that went through, which is
    also the sum of [raised] over the stored campaigns (refunds reduce
    neither), and [total_campaigns] and [next_campaign_id] are the number of
    stored campaigns; this is what [get_platform_stats] reports. *)
Theorem platform_stats_add_up (cs : list Call) :
  let w := run cs start in
  total_raised (store w) = donated cs start /\
  total_raised (store w) = map_sum (raised <$> campaigns (store w)) /\
  total_campaigns (store w) = Z.of_nat (size (campaigns (store w))) /\
  next_campaign_id (store w) = Z.of_nat (size (campaigns (store w))) /\
  get_platform_stats w =
    Ok ((Z.of_nat (size (campaigns (store w))), donated cs start), w).
Proof.
  destruct (consistent_run cs start consistent_init)
    as (_ & _ & Htotal & Hcount & Hsize).
  pose proof (given_run cs start) as Hgiven. simpl in *.
  assert (total_raised (store (run cs start)) = donated cs start) as Hd by lia.
  repeat split; try done; try lia.
  unfold get_platform_stats, gets. rewrite Hd. do 3 f_equal. lia.
Qed.

(** X15.  [claim_refund] goes through exactly when the campaign exists, its
    deadline lies before the current time, it is not fully funded and the
    caller has a positive donation on record; none of its steps can
    overflow.  It pays exactly the recorded donation to the caller and sets
    the record to zero, so that [get_donation] reports zero and the same
    call made again is rejected with "Nothing to refund"; the campaign,
    [raised] included, and [total_raised] stay as they were. *)
Theorem claim_refund_spec ctx id w :
  let key := (id, txn_sender ctx) in
  (succeeds (claim_refund ctx id) w <->
     exists c amount,
       campaigns (store w) !! id = Some c /\
       deadline c < latest_timestamp ctx /\
       fully_funded c = false /\
       donations (store w) !! key = Some amount /\
       0 < amount) /\
  (forall w',
     claim_refund ctx id w = Ok (tt, w') ->
     exists amount,
       donations (store w) !! key = Some amount /\
       snd <$> itxns w' = (snd <$> itxns w) ++ [Payment (txn_sender ctx) amount] /\
       donations (store w') = <[key := 0]> (donations (store w)) /\
       campaigns (store w') = campaigns (store w) /\
       total_raised (store w') = total_raised (store w) /\
       get_donation id (txn_sender ctx) w' = Ok (0, w') /\
       claim_refund ctx id w' = Abort (AssertFailed "Nothing to refund")) /\
  (forall c,
     campaigns (store w) !! id = Some c ->
     deadline c < latest_timestamp ctx -> fully_funded c = false ->
     donations (store w) !! key = None ->
     claim_refund ctx id w = Abort (AssertFailed "No donation found")).
Proof.
  intros key. split; [split|split].
  - intros ([] & w' & Hrun).
    apply claim_refund_ok in Hrun
      as (c & a & seen & Hc & Hdl & Hff & Ha & Hpos & _).
    by exists c, a.
  - intros (c & a & Hc & Hdl & Hff & Ha & Hpos).
    destruct (claim_refund ctx id w) as [[[] w']|f] eqn:Hrun;
      [by exists tt, w' | exfalso].
    unfold claim_refund in Hrun. fold key in Hrun.
    exec_inv Hrun; reflect_tests; simplify_eq; try congruence; lia.
  - intros w' Hrun. pose proof Hrun as Hrun'.
    apply claim_refund_ok in Hrun
      as (c & a & seen & Hc & Hdl & Hff & Ha & Hpos & Hd' & Hc' & _ & Hlog & _).
    fold key in Ha, Hd'.
    exists a. repeat split; try done.
    + by rewrite Hlog, fmap_app.
    + unfold claim_refund in Hrun'. exec_inv Hrun'. done.
    + unfold get_donation, gets, donation_of. fold key.
      by rewrite Hd', lookup_insert_eq.
    + unfold claim_refund. unfold_machine. simpl. fold key.
      rewrite Hc', Hc. simpl. apply Z.ltb_lt in Hdl. rewrite Hdl, Hff. simpl.
      by rewrite Hd', lookup_insert_eq.
  - intros c Hc Hdl Hff Hnone.
    unfold claim_refund. unfold_machine. simpl. fold key.
    rewrite Hc. simpl. apply Z.ltb_lt in Hdl. rewrite Hdl, Hff. simpl.
    by rewrite Hnone.
Qed.

(** X16.  In a well-formed store [release_milestone] goes through exactly
    when the campaign exists, the caller is its creator, it is fully funded
    and a milestone is left; neither the time of the call nor the deadline
    plays a part, and none of its steps can overflow. *)
Theorem release_milestone_spec ctx id w :
  wf (store w) ->
  (succeeds (release_milestone ctx id) w <->
     exists c,
       campaigns (store w) !! id = Some c /\
       txn_sender ctx = creator c /\
       fully_funded c = true /\
       milestones_released c < num_milestones c) /\
  (campaigns (store w) !! id = None ->
   release_milestone ctx id w = Abort (AssertFailed "Campaign not found")) /\
  (forall c,
     campaigns (store w) !! id = Some c ->
     txn_sender ctx = creator c -> fully_funded c = false ->
     release_milestone ctx id w = Abort (AssertFailed "Not fully funded yet")).
Proof.
  intros Hwf. split; [split|split].
  - intros ([] & w' & Hrun).
    apply release_milestone_ok in Hrun as (c & Hc & Hs & Hff & Hlt & _).
    by exists c.
  - intros (c & Hc & Hs & Hff & Hlt).
    destruct (Hwf id c Hc) as (_ & Hn & Hr & _).
    destruct (release_milestone ctx id w) as [[[] w']|f] eqn:Hrun;
      [by exists tt, w' | exfalso].
    unfold release_milestone in Hrun.
    exec_inv Hrun; reflect_tests; simplify_eq; try congruence;
      unfold MAX_UINT64 in *; lia.
  - intros Hc. unfold release_milestone. unfold_machine. by rewrite Hc.
  - intros c Hc Hs Hff. unfold release_milestone. unfold_machine. simpl.
    rewrite Hc, Hff. apply N.eqb_eq in Hs. by rewrite Hs.
Qed.

Lemma release_milestone_spec_witness :
  succeeds (release_milestone (party 1%N 9999) 0) funded_campaign.
Proof.
  apply (release_milestone_spec (party 1%N 9999) 0 funded_campaign).
  - apply campaigns_wf_run, campaigns_wf_init.
  - eexists. split; [vm_compute; reflexivity|].
    repeat split; vm_compute; reflexivity.
Defined.

(** X17.  As long as the three sums stay within [UInt64], [donate] goes
    through exactly when the campaign exists and is active and the payment
    is positive and addressed to the application.  It adds the payment to
    the caller's donation, which [get_donation] then reports, and to the
    campaign's [raised], leaves every other donation alone and pays
    nothing.  A campaign that is no longer active rejects donations. *)
Theorem donate_spec ctx id p w :
  let key := (id, txn_sender ctx) in
  donation_of key (store w) + pay_amount p <= MAX_UINT64 ->
  (forall c, campaigns (store w) !! id = Some c ->
             raised c + pay_amount p <= MAX_UINT64) ->
  total_raised (store w) + pay_amount p <= MAX_UINT64 ->
  (succeeds (donate ctx id p) w <->
     exists c,
       campaigns (store w) !! id = Some c /\
       active c = true /\
       pay_receiver p = current_application_address ctx /\
       0 < pay_amount p) /\
  (forall w',
     donate ctx id p w = Ok (tt, w') ->
     get_donation id (txn_sender ctx) w' =
       Ok (donation_of key (store w) + pay_amount p, w') /\
     (forall k, k <> key -> donations (store w') !! k = donations (store w) !! k) /\
     (raised <$> campaigns (store w') !! id) =
       ((fun c => raised c + pay_amount p) <$> campaigns (store w) !! id) /\
     itxns w' = itxns w) /\
  (forall c, campaigns (store w) !! id = Some c -> active c = false ->
     donate ctx id p w = Abort (AssertFailed "Campaign not active")).
Proof.
  intros key Hd Hr Ht. split; [split|split].
  - intros ([] & w' & Hrun).
    apply donate_ok in Hrun as (c & Hc & Hact & Hrecv & Hamt & _).
    by exists c.
  - intros (c & Hc & Hact & Hrecv & Hamt). specialize (Hr c Hc).
    destruct (donate ctx id p w) as [[[] w']|f] eqn:Hrun;
      [by exists tt, w' | exfalso].
    unfold donate in Hrun. fold key in Hrun.
    exec_inv Hrun; reflect_tests; simplify_eq; try congruence; lia.
  - intros w' Hrun.
    apply donate_ok in Hrun as (c & Hc & _ & _ & _ & Hd' & Hc' & _ & Hlog).
    fold key in Hd'. repeat split; try done.
    + unfold get_donation, gets, donation_of. fold key.
      by rewrite Hd', lookup_insert_eq.
    + intros k Hk. by rewrite Hd', lookup_insert_ne.
    + rewrite Hc', lookup_insert_eq, Hc. simpl. f_equal.
      unfold credited. simpl. by destruct (_ <=? _).
  - intros c Hc Hact. unfold donate. unfold_machine. simpl.
    by rewrite Hc, Hact.
Qed.

Lemma donate_spec_witness :
  succeeds (donate (party 5%N 1250) 0 (mkPayment 99%N 7)) funded_campaign.
Proof.
  apply (donate_spec (party 5%N 1250) 0 (mkPayment 99%N 7) funded_campaign).
  - vm_compute. discriminate.
  - intros c Hc. vm_compute in Hc. injection Hc as <-. vm_compute. discriminate.
  - vm_compute. discriminate.
  - eexists. split; [vm_compute; reflexivity|].
    repeat split; vm_compute; reflexivity.
Defined.

(** What one call can do to the terms and the progress of a campaign. *)
Lemma campaign_terms_step call w id c :
  wf (store w) ->
  campaigns (store w) !! id = Some c ->
  exists c',
    campaigns (store (commit (exec call) w)) !! id = Some c' /\
    deadline c' = deadline c /\
    raised c <= raised c' /\
    milestones_released c <= milestones_released c' /\
    (active c = false -> active c' = false).
Proof.
  intros Hwf Hc. unfold commit.
  destruct call as [ctx g n dl title descr|ctx id' p|ctx id'|ctx id']; simpl.
  - unfold bind.
    destruct (create_campaign ctx g n dl title descr w) as [[k w']|f] eqn:Hrun;
      simpl; [|exists c; repeat split; done || lia].
    apply create_campaign_ok in Hrun as (-> & _ & _ & Hc' & _).
    exists c. rewrite Hc', lookup_insert_ne; [repeat split; done || lia|].
    apply Hwf in Hc. lia.
  - destruct (donate ctx id' p w) as [[[] w']|f] eqn:Hrun;
      [|exists c; repeat split; done || lia].
    apply donate_ok in Hrun as (c0 & Hc0 & _ & _ & Hamt & _ & Hc' & _).
    rewrite Hc'. destruct (decide (id' = id)) as [->|Hne].
    + rewrite lookup_insert_eq. assert (c0 = c) as -> by congruence.
      exists (credited (pay_amount p) c). unfold credited. simpl.
      destruct (goal c <=? raised c + pay_amount p); simpl;
        repeat split; done || lia.
    + rewrite lookup_insert_ne by done. exists c. repeat split; done || lia.
  - destruct (release_milestone ctx id' w) as [[[] w']|f] eqn:Hrun;
      [|exists c; repeat split; done || lia].
    apply release_milestone_ok in Hrun as (c0 & Hc0 & _ & _ & _ & _ & _ & Hc' & _).
    rewrite Hc'. destruct (decide (id' = id)) as [->|Hne].
    + rewrite lookup_insert_eq. assert (c0 = c) as -> by congruence.
      exists (advanced c). unfold advanced. simpl.
      destruct (milestones_released c + 1 =? num_milestones c); simpl;
        repeat split; done || lia.
    + rewrite lookup_insert_ne by done. exists c. repeat split; done || lia.
  - destruct (claim_refund ctx id' w) as [[[] w']|f] eqn:Hrun;
      [|exists c; repeat split; done || lia].
    apply claim_refund_ok in Hrun
      as (c0 & a & seen & _ & _ & _ & _ & _ & _ & Hc' & _).
    rewrite Hc'. exists c. repeat split; done || lia.
Qed.

(** X18.  Whatever calls follow, a stored campaign keeps its creator, goal,
    milestone count and deadline; what it raised and the number of
    milestones it released never go down (a refund does not reduce
    [raised]), and once inactive it stays inactive. *)
Theorem campaign_progress cs : forall w id c,
  wf (store w) ->
  campaigns (store w) !! id = Some c ->
  exists c',
    campaigns (store (run cs w)) !! id = Some c' /\
    creator c' = creator c /\
    goal c' = goal c /\
    num_milestones c' = num_milestones c /\
    deadline c' = deadline c /\
    raised c <= raised c' /\
    milestones_released c <= milestones_released c' /\
    (active c = false -> active c' = false).
Proof.
  induction cs as [|call cs IH]; intros w id c Hwf Hc; simpl.
  - exists c. repeat split; done || lia.
  - destruct (campaign_terms_step call w id c Hwf Hc)
      as (c1 & Hc1 & Hdl & Hr & Hm & Ha).
    destruct (campaign_step call w id c Hwf Hc)
      as (c1' & Hc1' & Hcr & Hg & Hn & _).
    assert (c1' = c1) as -> by congruence.
    destruct (IH _ id c1 (campaigns_wf_step call w Hwf) Hc1)
      as (c' & Hc' & Hcr' & Hg' & Hn' & Hdl' & Hr' & Hm' & Ha').
    exists c'. repeat split; try congruence; try lia. tauto.
Qed.

Lemma campaign_progress_witness :
  exists c',
    campaigns (store (run three_releases funded_campaign)) !! 0 = Some c' /\
    raised c' >= 100 /\ deadline c' = 2000.
Proof.
  destruct (campaign_progress three_releases funded_campaign 0
              (mkCampaign 1%N 100 100 3 0 2000 true true))
    as (c' & Hc' & _ & _ & _ & Hdl & Hr & _).
  - apply campaigns_wf_run, campaigns_wf_init.
  - vm_compute. reflexivity.
  - exists c'. simpl in Hdl, Hr. repeat split; [done | lia | done].
Defined.

End FundraiseProofs.

(** ** The ticket issuance registry *)
Module TicketingProofs.
Import Ticketing.

Lemma create_event_ok ctx name pr mx tr st en descr w id w' :
  create_event ctx name pr mx tr st en descr w = Ok (id, w') ->
  id = next_event_id (store w) /\
  0 < mx <= 100000 /\
  st < en /\
  events (store w') =
    <[id := mkEvent (txn_sender ctx) pr mx 0 tr st en]> (events (store w)) /\
  tickets (store w') = tickets (store w) /\
  next_event_id (store w') = id + 1 /\
  asset_ctr w' = asset_ctr w /\
  itxns w' = itxns w.
Proof.
  intros Hrun. unfold create_event in Hrun.
  exec_inv Hrun; reflect_tests; repeat split; try done; lia.
Qed.

(** What a purchase that goes through has done. *)
Lemma buy_ticket_ok ctx e p w a w' :
  buy_ticket ctx e p w = Ok (a, w') ->
  exists ev,
    events (store w) !! e = Some ev /\
    sold ev < max_tickets ev /\
    pay_amount p = price ev /\
    pay_receiver p = current_application_address ctx /\
    a = asset_ctr w /\
    asset_ctr w' = asset_ctr w + 1 /\
    tickets (store w') =
      <[a := mkTicket e (txn_sender ctx) (sold ev) false (latest_timestamp ctx)]>
        (tickets (store w)) /\
    events (store w') = <[e := with_sold (sold ev + 1) ev]> (events (store w)) /\
    next_event_id (store w') = next_event_id (store w).
Proof.
  intros Hrun. unfold buy_ticket in Hrun.
  exec_inv Hrun; reflect_tests.
  all: eexists; repeat split; try done; lia.
Qed.

Lemma use_ticket_ok ctx a w w' :
  use_ticket ctx a w = Ok (tt, w') ->
  exists t ev,
    tickets (store w) !! a = Some t /\
    events (store w) !! event_id t = Some ev /\
    txn_sender ctx = organizer ev /\
    used t = false /\
    tickets (store w') = <[a := with_used true t]> (tickets (store w)) /\
    events (store w') = events (store w) /\
    next_event_id (store w') = next_event_id (store w) /\
    asset_ctr w' = asset_ctr w /\
    itxns w' = itxns w.
Proof.
  intros Hrun. unfold use_ticket in Hrun.
  exec_inv Hrun; reflect_tests.
  eexists _, _; repeat split; try done; lia.
Qed.

(** What a sales withdrawal that goes through has done: one payment of
    [price * sold] to the caller, and nothing written. *)
Lemma withdraw_sales_ok ctx e w w' :
  withdraw_sales ctx e w = Ok (tt, w') ->
  exists ev,
    events (store w) !! e = Some ev /\
    txn_sender ctx = organizer ev /\
    0 < price ev * sold ev <= MAX_UINT64 /\
    store w' = store w /\
    asset_ctr w' = asset_ctr w /\
    itxns w' =
      itxns w ++ [(store w, Payment (txn_sender ctx) (price ev * sold ev))].
Proof.
  intros Hrun. unfold withdraw_sales in Hrun.
  exec_inv Hrun; reflect_tests.
  eexists; repeat split; try done; lia.
Qed.

(** *** Ticket numbers *)

Lemma ticket_numbers_ext e s1 s2 :
  tickets s1 = tickets s2 -> ticket_numbers e s1 = ticket_numbers e s2.
Proof. unfold ticket_numbers. by intros ->. Qed.

(** Storing a ticket under a fresh asset id adds its number to its event. *)
Lemma ticket_numbers_fresh e s s' a t :
  tickets s !! a = None ->
  tickets s' = <[a := t]> (tickets s) ->
  ticket_numbers e s' ≡ₚ
    if decide (event_id t = e) then ticket_number t :: ticket_numbers e s
    else ticket_numbers e s.
Proof.
  intros Hfresh Hs'. unfold ticket_numbers. rewrite Hs'.
  rewrite (map_to_list_insert _ a t Hfresh). simpl.
  rewrite filter_cons. simpl.
  destruct (decide (event_id t = e)); by simpl.
Qed.

(** Rewriting a stored ticket without touching its event and number keeps
    the numbers of every event. *)
Lemma ticket_numbers_update e s s' a t t' :
  tickets s !! a = Some t ->
  tickets s' = <[a := t']> (tickets s) ->
  event_id t' = event_id t ->
  ticket_number t' = ticket_number t ->
  ticket_numbers e s' ≡ₚ ticket_numbers e s.
Proof.
  intros Ht Hs' He Hn. unfold ticket_numbers. rewrite Hs'.
  rewrite <- insert_delete_eq.
  rewrite (map_to_list_insert (delete a (tickets s)) a t')
    by apply lookup_delete_eq.
  rewrite <- (map_to_list_delete (tickets s) a t Ht). simpl.
  rewrite !filter_cons. simpl. rewrite He.
  destruct (decide (event_id t = e)); simpl; by rewrite ?Hn.
Qed.

Lemma ticket_numbers_none e s :
  (forall a t, tickets s !! a = Some t -> event_id t <> e) ->
  ticket_numbers e s = [].
Proof.
  intros Hnone. unfold ticket_numbers.
  assert (Hall : forall t, t ∈ (snd <$> map_to_list (tickets s)) -> event_id t <> e).
  { intros t Ht. apply list_elem_of_fmap in Ht as ([a t'] & -> & Hin).
    apply elem_of_map_to_list in Hin. simpl. eauto. }
  induction (snd <$> map_to_list (tickets s)) as [|t l IH]; [done|].
  rewrite filter_cons_False.
  - apply IH. intros t' Ht'. apply Hall. by right.
  - apply Hall. by left.
Qed.

Lemma seqZ_snoc n : 0 <= n -> n :: seqZ 0 n ≡ₚ seqZ 0 (n + 1).
Proof.
  intros Hn. rewrite (seqZ_app 0 n 1) by lia.
  rewrite Permutation_cons_append. done.
Qed.

Lemma events_wf_start : wf start.
Proof.
  split; intros k x Hk; simpl in Hk; by rewrite lookup_empty in Hk.
Qed.

Lemma events_wf_create ctx name pr mx tr st en descr w id w' :
  wf w -> create_event ctx name pr mx tr st en descr w = Ok (id, w') -> wf w'.
Proof.
  intros [Hev Htk] Hrun.
  apply create_event_ok in Hrun as (-> & Hmx & _ & He' & Ht' & Hnext & Hctr & _).
  split.
  - intros e ev Hlook. rewrite He' in Hlook. rewrite Hnext.
    rewrite (ticket_numbers_ext e _ (store w) Ht').
    apply lookup_insert_Some in Hlook as [[<- <-]|[_ Hlook]]; simpl.
    + repeat split; try lia.
      rewrite ticket_numbers_none; [done|].
      intros a t Ha. apply Htk in Ha. lia.
    + apply Hev in Hlook. intuition lia.
  - intros a t Ha. rewrite Ht' in Ha. rewrite Hnext, Hctr.
    apply Htk in Ha. lia.
Qed.

Lemma events_wf_buy ctx e p w a w' :
  wf w -> buy_ticket ctx e p w = Ok (a, w') -> wf w'.
Proof.
  intros [Hev Htk] Hrun.
  apply buy_ticket_ok in Hrun
    as (ev & Hlook & Hlt & _ & _ & -> & Hctr & Ht' & He' & Hnext).
  assert (Hfresh : tickets (store w) !! asset_ctr w = None).
  { destruct (tickets (store w) !! asset_ctr w) as [t|] eqn:Ht; [|done].
    apply Htk in Ht. lia. }
  destruct (Hev e ev Hlook) as (He & Hmx & Hsold & Hnum).
  split.
  - intros e2 ev2 Hlook2. rewrite He' in Hlook2. rewrite Hnext.
    rewrite (ticket_numbers_fresh e2 (store w) (store w') _ _ Hfresh Ht'). simpl.
    apply lookup_insert_Some in Hlook2 as [[<- <-]|[Hne Hlook2]]; simpl.
    + rewrite decide_True by done.
      repeat split; try lia.
      rewrite Hnum. apply seqZ_snoc. lia.
    + rewrite decide_False by done. by apply Hev.
  - intros a t Ha. rewrite Ht' in Ha. rewrite Hnext, Hctr.
    apply lookup_insert_Some in Ha as [[<- <-]|[_ Ha]]; simpl; [lia|].
    apply Htk in Ha. lia.
Qed.

Lemma events_wf_use ctx a w w' :
  wf w -> use_ticket ctx a w = Ok (tt, w') -> wf w'.
Proof.
  intros [Hev Htk] Hrun.
  apply use_ticket_ok in Hrun
    as (t & ev & Ht & _ & _ & _ & Ht' & He' & Hnext & Hctr & _).
  split.
  - intros e2 ev2 Hlook2. rewrite He' in Hlook2. rewrite Hnext.
    rewrite (ticket_numbers_update e2 (store w) (store w') a t _ Ht Ht')
      by done.
    by apply Hev.
  - intros a2 t2 Ha. rewrite Ht' in Ha. rewrite Hnext, Hctr.
    apply lookup_insert_Some in Ha as [[<- <-]|[_ Ha]]; simpl; eauto.
Qed.

Lemma events_wf_step call w : wf w -> wf (commit (exec call) w).
Proof.
  intros Hwf. unfold commit.
  destruct call as [ctx name pr mx tr st en descr|ctx e p|ctx a|ctx e]; simpl.
  - unfold bind at 1.
    destruct (create_event ctx name pr mx tr st en descr w) as [[id w']|f] eqn:Hrun;
      [|done].
    simpl. by eapply events_wf_create.
  - unfold bind at 1.
    destruct (buy_ticket ctx e p w) as [[a w']|f] eqn:Hrun; [|done].
    simpl. by eapply events_wf_buy.
  - destruct (use_ticket ctx a w) as [[[] w']|f] eqn:Hrun; [|done].
    by eapply events_wf_use.
  - destruct (withdraw_sales ctx e w) as [[[] w']|f] eqn:Hrun; [|done].
    apply withdraw_sales_ok in Hrun as (ev & _ & _ & _ & Hs & Hctr & _).
    destruct Hwf as [Hev Htk]. split.
    + intros e2 ev2. rewrite Hs. apply Hev.
    + intros a t. rewrite Hs, Hctr. apply Htk.
Qed.

Lemma events_wf_run cs : forall w, wf w -> wf (run cs w).
Proof.
  induction cs as [|c cs IH]; intros w Hw; simpl; [done|].
  apply IH. by apply events_wf_step.
Qed.

(** A purchase for an event that has sold its capacity is rejected first
    thing, whatever the payment. *)
Lemma buy_ticket_sold_out ctx e p w ev :
  events (store w) !! e = Some ev ->
  max_tickets ev <= sold ev ->
  buy_ticket ctx e p w = Abort (AssertFailed "Sold out!").
Proof.
  intros Hlook Hfull. unfold buy_ticket. unfold_machine. simpl.
  rewrite Hlook. apply Z.ltb_ge in Hfull. by rewrite Hfull.
Qed.

(** A correctly paid purchase for an event with tickets left goes through. *)
Lemma buy_ticket_available ctx e p w ev :
  wf w ->
  events (store w) !! e = Some ev ->
  sold ev < max_tickets ev ->
  pay_amount p = price ev ->
  pay_receiver p = current_application_address ctx ->
  total_tickets_sold (store w) < MAX_UINT64 ->
  exists a w', buy_ticket ctx e p w = Ok (a, w').
Proof.
  intros [Hev _] Hlook Hlt Hpay Hrecv Htotal.
  destruct (Hev e ev Hlook) as (_ & Hmx & Hsold & _).
  destruct (buy_ticket ctx e p w) as [[a w']|f] eqn:Hrun;
    [by exists a, w' | exfalso].
  unfold buy_ticket in Hrun.
  exec_inv Hrun; reflect_tests; simplify_eq; try congruence;
    unfold MAX_UINT64 in *; lia.
Qed.

(** C6.  In every state the registry reaches, an event has sold no more
    than [max_tickets] and the ticket numbers recorded for it are exactly
    [0 .. sold - 1], each once.  With one ticket left a correctly paid
    purchase goes through and takes the last number; after it every purchase
    for the event is rejected as sold out, a state conflict. *)
Theorem ticket_issuance cs w0 e ev :
  wf w0 ->
  let w := run cs w0 in
  events (store w) !! e = Some ev ->
  sold ev <= max_tickets ev /\
  ticket_numbers e (store w) ≡ₚ seqZ 0 (sold ev) /\
  (sold ev = max_tickets ev - 1 ->
   forall ctx p,
     pay_amount p = price ev ->
     pay_receiver p = current_application_address ctx ->
     total_tickets_sold (store w) < MAX_UINT64 ->
     exists a w',
       buy_ticket ctx e p w = Ok (a, w') /\
       (ticket_number <$> tickets (store w') !! a) = Some (max_tickets ev - 1) /\
       (sold <$> events (store w') !! e) = Some (max_tickets ev) /\
       forall ctx2 p2,
         buy_ticket ctx2 e p2 w' = Abort (AssertFailed "Sold out!")) /\
  (sold ev = max_tickets ev ->
   forall ctx p, buy_ticket ctx e p w = Abort (AssertFailed "Sold out!")) /\
  classify (AssertFailed "Sold out!") = StateConflict.
Proof.
  intros Hwf0 w Hlook.
  assert (Hwf : wf w) by by apply events_wf_run.
  destruct (proj1 Hwf e ev Hlook) as (_ & Hmx & Hsold & Hnum).
  repeat split; try done; try lia.
  - intros Hlast ctx p Hpay Hrecv Htotal.
    destruct (buy_ticket_available ctx e p w ev Hwf Hlook) as (a & w' & Hrun);
      try done; [lia|].
    exists a, w'. split; [done|].
    apply buy_ticket_ok in Hrun
      as (ev0 & Hlook0 & _ & _ & _ & _ & _ & Ht' & He' & _).
    assert (ev0 = ev) as -> by congruence.
    assert (Hnew : events (store w') !! e = Some (with_sold (sold ev + 1) ev))
      by by rewrite He', lookup_insert_eq.
    repeat split.
    + rewrite Ht', lookup_insert_eq. simpl. by rewrite Hlast.
    + rewrite Hnew. simpl. f_equal. lia.
    + intros ctx2 p2. apply (buy_ticket_sold_out ctx2 e p2 w' _ Hnew). simpl. lia.
  - intros Hfull ctx p. apply (buy_ticket_sold_out ctx e p w ev Hlook). lia.
Qed.

Lemma ticket_issuance_witness :
  ticket_numbers 0 (store one_seat_left) ≡ₚ seqZ 0 1 /\
  exists a w',
    buy_ticket (visitor 3%N) 0 (mkPayment 99%N 50) one_seat_left = Ok (a, w') /\
    (ticket_number <$> tickets (store w') !! a) = Some 1 /\
    forall ctx2 p2, buy_ticket ctx2 0 p2 w' = Abort (AssertFailed "Sold out!").
Proof.
  destruct (ticket_issuance fest start 0
              (mkEvent 1%N 50 2 1 false 5000 6000) events_wf_start)
    as (_ & Hnum & Hlast & _).
  { vm_compute. reflexivity. }
  split; [exact Hnum|].
  destruct (Hlast eq_refl (visitor 3%N) (mkPayment 99%N 50))
    as (a & w' & Hrun & Hn & _ & Hout).
  - reflexivity.
  - reflexivity.
  - vm_compute. reflexivity.
  - by exists a, w'.
Defined.

Example both_seats_numbered :
  ticket_numbers 0
    (store (commit (buy_ticket (visitor 3%N) 0 (mkPayment 99%N 50)) one_seat_left))
  ≡ₚ [0; 1].
Proof. vm_compute. apply perm_swap. Qed.

(** C8, as the code has it.  For the organizer of an event whose revenue
    [price * sold] is positive and fits [UInt64], [withdraw_sales] submits one
    payment of exactly that revenue to the caller and writes nothing, so that
    a second call in the resulting state pays the same revenue again.  With
    no revenue the call is rejected and nothing is paid. *)
Theorem withdraw_sales_spec ctx e w ev :
  events (store w) !! e = Some ev ->
  txn_sender ctx = organizer ev ->
  let revenue := price ev * sold ev in
  (0 < revenue <= MAX_UINT64 ->
   exists w' w'',
     withdraw_sales ctx e w = Ok (tt, w') /\
     store w' = store w /\
     itxns w' = itxns w ++ [(store w, Payment (txn_sender ctx) revenue)] /\
     withdraw_sales ctx e w' = Ok (tt, w'') /\
     store w'' = store w /\
     itxns w'' = itxns w' ++ [(store w, Payment (txn_sender ctx) revenue)]) /\
  (revenue = 0 ->
   withdraw_sales ctx e w = Abort (AssertFailed "No revenue to withdraw")).
Proof.
  intros Hlook Horg revenue.
  assert (Hcall : forall w1, store w1 = store w -> 0 < revenue <= MAX_UINT64 ->
            withdraw_sales ctx e w1 =
            Ok (tt, mkWorld (store w1)
                      (itxns w1 ++ [(store w1, Payment (txn_sender ctx) revenue)])
                      (asset_ctr w1))).
  { intros w1 Hs [Hpos Hmax]. unfold withdraw_sales. unfold_machine. simpl.
    rewrite Hs, Hlook. apply N.eqb_eq in Horg. rewrite Horg.
    unfold revenue in *. apply Z.leb_le in Hmax. rewrite Hmax.
    apply Z.ltb_lt in Hpos. rewrite Hpos. by rewrite Hs. }
  split.
  - intros Hrev. eexists _, _.
    rewrite (Hcall w eq_refl Hrev). split; [done|]. simpl.
    rewrite Hcall by done. simpl. by repeat split.
  - intros Hzero. unfold withdraw_sales. unfold_machine. simpl.
    rewrite Hlook. apply N.eqb_eq in Horg. rewrite Horg.
    unfold revenue in Hzero. rewrite Hzero. done.
Qed.

Lemma withdraw_sales_spec_witness :
  exists w' w'',
    withdraw_sales (visitor 1%N) 0 one_seat_left = Ok (tt, w') /\
    store w' = store one_seat_left /\
    withdraw_sales (visitor 1%N) 0 w' = Ok (tt, w'') /\
    snd <$> itxns w'' =
      (snd <$> itxns one_seat_left) ++ [Payment 1%N 50; Payment 1%N 50].
Proof.
  destruct (withdraw_sales_spec (visitor 1%N) 0 one_seat_left
              (mkEvent 1%N 50 2 1 false 5000 6000))
    as [Hpays _].
  - vm_compute. reflexivity.
  - reflexivity.
  - destruct Hpays as (w' & w'' & H1 & Hs1 & Hl1 & H2 & Hs2 & Hl2).
    { vm_compute. split; [reflexivity | discriminate]. }
    exists w', w''. repeat split; try done.
    rewrite Hl2, Hl1, !fmap_app, <- app_assoc. done.
Defined.

(** With no ticket sold the organizer's call is rejected, and no payment is
    submitted. *)
Lemma withdraw_sales_without_revenue :
  (organizer <$> events (store unsold_event) !! 0) = Some (txn_sender (visitor 1%N)) /\
  withdraw_sales (visitor 1%N) 0 unsold_event =
    Abort (AssertFailed "No revenue to withdraw") /\
  itxns (commit (withdraw_sales (visitor 1%N) 0) unsold_event) = [].
Proof. repeat split; vm_compute; reflexivity. Qed.
(** *** Events, purchases and admission *)

(** X19.  As long as [next_event_id] stays within [UInt64], [create_event]
    goes through exactly when the capacity is between 1 and 100000 and the
    end time lies after the start time; the price may be anything, zero
    included, and the times are not compared with the current time.  It
    returns [next_event_id], which no stored event had, stores an event of
    the caller with nothing sold, which [get_event_info] then reports, and
    keeps every other event and every ticket. *)
Theorem create_event_spec ctx name pr mx tr st en descr w :
  wf w ->
  next_event_id (store w) < MAX_UINT64 ->
  (succeeds (create_event ctx name pr mx tr st en descr) w <->
     0 < mx <= 100000 /\ st < en) /\
  (forall id w',
     create_event ctx name pr mx tr st en descr w = Ok (id, w') ->
     id = next_event_id (store w) /\
     get_event_info id w = Abort (AssertFailed "Event not found") /\
     get_event_info id w' = Ok ((txn_sender ctx, pr, mx, 0, tr), w') /\
     (forall id' ev, events (store w) !! id' = Some ev ->
                     events (store w') !! id' = Some ev) /\
     tickets (store w') = tickets (store w) /\
     itxns w' = itxns w).
Proof.
  intros [Hev _] Hnext. split.
  - split.
    + intros (id & w' & Hrun).
      by apply create_event_ok in Hrun as (_ & Hmx & Hst & _).
    + intros (Hmx & Hst).
      destruct (create_event ctx name pr mx tr st en descr w) as [[id w']|f] eqn:Hrun;
        [by exists id, w' | exfalso].
      unfold create_event in Hrun. exec_inv Hrun; lia.
  - intros id w' Hrun.
    assert (Hfresh : events (store w) !! next_event_id (store w) = None).
    { destruct (events (store w) !! next_event_id (store w)) as [ev|] eqn:Hk;
        [|done]. apply Hev in Hk. lia. }
    apply create_event_ok in Hrun as (-> & _ & _ & He & Ht & _ & _ & Hlog).
    repeat split; try done.
    + unfold get_event_info. unfold_machine. by rewrite Hfresh.
    + unfold get_event_info. unfold_machine. simpl.
      by rewrite He, lookup_insert_eq.
    + intros id' ev Hid. rewrite He, lookup_insert_ne; [done|].
      intros <-. congruence.
Qed.

Lemma create_event_spec_witness :
  succeeds (create_event (visitor 4%N) "Techfest" 0 100 true 7000 8000 "Free entry")
    one_seat_left.
Proof.
  apply (create_event_spec (visitor 4%N) "Techfest" 0 100 true 7000 8000
           "Free entry" one_seat_left).
  - apply events_wf_run, events_wf_start.
  - vm_compute. reflexivity.
  - repeat split; vm_compute; first [reflexivity | discriminate].
Defined.

(** X20.  In a well-formed registry whose ticket counter is below the
    [UInt64] maximum, [buy_ticket] goes through exactly when the event
    exists, has tickets left, and the payment is the exact price and
    addressed to the application.  It mints one asset under an identifier no
    ticket had, transfers it to the caller and freezes it there exactly when
    the event is not transferable, in that order and with no payment; the
    ticket it stores is reported by [verify_ticket] as the caller's and
    valid, and every earlier ticket is kept.  An event that is sold out is
    reported before a wrong payment is. *)
Theorem buy_ticket_spec ctx e p w :
  wf w ->
  total_tickets_sold (store w) < MAX_UINT64 ->
  let app := current_application_address ctx in
  let buyer := txn_sender ctx in
  (succeeds (buy_ticket ctx e p) w <->
     exists ev,
       events (store w) !! e = Some ev /\
       sold ev < max_tickets ev /\
       pay_amount p = price ev /\
       pay_receiver p = app) /\
  (forall a w',
     buy_ticket ctx e p w = Ok (a, w') ->
     exists ev,
       events (store w) !! e = Some ev /\
       tickets (store w) !! a = None /\
       snd <$> itxns w' =
         (snd <$> itxns w) ++
         [AssetConfig "CampusPay Ticket" "CPTIX" 1 0 false app app app app;
          AssetTransfer a buyer 1] ++
         (if transferable ev then [] else [AssetFreeze a buyer true]) /\
       verify_ticket a w' = Ok ((buyer, true), w') /\
       (forall a' t, tickets (store w) !! a' = Some t ->
                     tickets (store w') !! a' = Some t)) /\
  (events (store w) !! e = None ->
   buy_ticket ctx e p w = Abort (AssertFailed "Event not found")) /\
  (forall ev, events (store w) !! e = Some ev ->
     sold ev < max_tickets ev -> pay_amount p <> price ev ->
     buy_ticket ctx e p w = Abort (AssertFailed "Incorrect payment amount")).
Proof.
  intros Hwf Htotal app buyer. split; [split|split; [|split]].
  - intros (a & w' & Hrun).
    apply buy_ticket_ok in Hrun as (ev & Hev & Hlt & Hpay & Hrecv & _).
    by exists ev.
  - intros (ev & Hev & Hlt & Hpay & Hrecv).
    by apply (buy_ticket_available ctx e p w ev).
  - intros a w' Hrun. pose proof Hrun as Hrun'.
    apply buy_ticket_ok in Hrun as (ev & Hev & _ & _ & _ & -> & _ & Ht' & _).
    assert (Hfresh : tickets (store w) !! asset_ctr w = None).
    { destruct (tickets (store w) !! asset_ctr w) as [t|] eqn:Ht; [|done].
      apply (proj2 Hwf) in Ht. lia. }
    exists ev. repeat split; try done.
    + unfold buy_ticket in Hrun'. fold app buyer in Hrun'.
      exec_inv Hrun'; reflect_tests; simplify_eq;
        match goal with H : transferable _ = _ |- _ => rewrite H end;
        rewrite ?fmap_app; simpl; by rewrite <- ?app_assoc.
    + unfold verify_ticket. unfold_machine. simpl.
      by rewrite Ht', lookup_insert_eq.
    + intros a' t Ha'. rewrite Ht', lookup_insert_ne; [done|].
      intros <-. congruence.
  - intros Hev. unfold buy_ticket. unfold_machine. by rewrite Hev.
  - intros ev Hev Hlt Hpay. unfold buy_ticket. unfold_machine. simpl.
    rewrite Hev. apply Z.ltb_lt in Hlt. rewrite Hlt.
    apply Z.eqb_neq in Hpay. by rewrite Hpay.
Qed.

Lemma buy_ticket_spec_witness :
  succeeds (buy_ticket (visitor 3%N) 0 (mkPayment 99%N 50)) one_seat_left.
Proof.
  apply (buy_ticket_spec (visitor 3%N) 0 (mkPayment 99%N 50) one_seat_left).
  - apply events_wf_run, events_wf_start.
  - vm_compute. reflexivity.
  - eexists. split; [vm_compute; reflexivity|].
    repeat split; vm_compute; reflexivity.
Defined.

(** X21.  [use_ticket] goes through exactly when the ticket exists, its
    event exists, the caller is the organizer of that event and the ticket
    is unused; none of its steps can overflow.  It marks the ticket used,
    after which [verify_ticket] reports it as invalid, with the same owner,
    and the same call made again is rejected with "Ticket already used"; the
    events, the other tickets and the log of inner transactions stay as they
    were. *)
Theorem use_ticket_spec ctx a w :
  (succeeds (use_ticket ctx a) w <->
     exists t ev,
       tickets (store w) !! a = Some t /\
       events (store w) !! event_id t = Some ev /\
       txn_sender ctx = organizer ev /\
       used t = false) /\
  (forall w',
     use_ticket ctx a w = Ok (tt, w') ->
     exists t,
       tickets (store w) !! a = Some t /\
       verify_ticket a w = Ok ((owner t, true), w) /\
       verify_ticket a w' = Ok ((owner t, false), w') /\
       use_ticket ctx a w' = Abort (AssertFailed "Ticket already used") /\
       (forall a', a' <> a -> tickets (store w') !! a' = tickets (store w) !! a') /\
       events (store w') = events (store w) /\
       itxns w' = itxns w) /\
  (tickets (store w) !! a = None ->
   use_ticket ctx a w = Abort (AssertFailed "Ticket not found")) /\
  (forall t ev,
     tickets (store w) !! a = Some t ->
     events (store w) !! event_id t = Some ev ->
     txn_sender ctx <> organizer ev ->
     use_ticket ctx a w = Abort (AssertFailed "Only organizer can mark used")).
Proof.
  split; [split|split; [|split]].
  - intros ([] & w' & Hrun).
    apply use_ticket_ok in Hrun as (t & ev & Ht & Hev & Hs & Hu & _).
    by exists t, ev.
  - intros (t & ev & Ht & Hev & Hs & Hu).
    unfold succeeds, use_ticket. unfold_machine. simpl.
    rewrite Ht. simpl. rewrite Hev. apply N.eqb_eq in Hs. rewrite Hs, Hu. simpl.
    by eexists _, _.
  - intros w' Hrun.
    apply use_ticket_ok in Hrun
      as (t & ev & Ht & Hev & Hs & Hu & Ht' & He' & _ & _ & Hlog).
    exists t. repeat split; try done.
    + unfold verify_ticket. unfold_machine. simpl. by rewrite Ht, Hu.
    + unfold verify_ticket. unfold_machine. simpl.
      by rewrite Ht', lookup_insert_eq.
    + unfold use_ticket. unfold_machine. simpl.
      rewrite Ht', lookup_insert_eq. simpl. rewrite He', Hev.
      apply N.eqb_eq in Hs. by rewrite Hs.
    + intros a' Hne. by rewrite Ht', lookup_insert_ne.
  - intros Ht. unfold use_ticket. unfold_machine. by rewrite Ht.
  - intros t ev Ht Hev Hs. unfold use_ticket. unfold_machine. simpl.
    rewrite Ht. simpl. rewrite Hev. apply N.eqb_neq in Hs. by rewrite Hs.
Qed.

(** What one call can do to a stored ticket and to a stored event. *)
Lemma ticket_step call w a t :
  wf w ->
  tickets (store w) !! a = Some t ->
  exists t',
    tickets (store (commit (exec call) w)) !! a = Some t' /\
    event_id t' = event_id t /\
    owner t' = owner t /\
    ticket_number t' = ticket_number t /\
    purchase_time t' = purchase_time t /\
    (used t = true -> used t' = true).
Proof.
  intros [_ Htk] Ht. unfold commit.
  destruct call as [ctx name pr mx tr st en descr|ctx e p|ctx a'|ctx e]; simpl.
  - unfold bind.
    destruct (create_event ctx name pr mx tr st en descr w) as [[id w']|f] eqn:Hrun;
      simpl; [|by exists t].
    apply create_event_ok in Hrun as (_ & _ & _ & _ & Ht' & _).
    rewrite Ht'. by exists t.
  - unfold bind.
    destruct (buy_ticket ctx e p w) as [[k w']|f] eqn:Hrun; simpl; [|by exists t].
    apply buy_ticket_ok in Hrun as (ev & _ & _ & _ & _ & -> & _ & Ht' & _).
    rewrite Ht', lookup_insert_ne; [by exists t|].
    intros <-. apply Htk in Ht. lia.
  - destruct (use_ticket ctx a' w) as [[[] w']|f] eqn:Hrun; [|by exists t].
    apply use_ticket_ok in Hrun as (t0 & ev & Ht0 & _ & _ & _ & Ht' & _).
    rewrite Ht'. destruct (decide (a' = a)) as [->|Hne].
    + rewrite lookup_insert_eq. assert (t0 = t) as -> by congruence.
      by exists (with_used true t).
    + rewrite lookup_insert_ne by done. by exists t.
  - destruct (withdraw_sales ctx e w) as [[[] w']|f] eqn:Hrun; [|by exists t].
    apply withdraw_sales_ok in Hrun as (ev & _ & _ & _ & -> & _). by exists t.
Qed.

Lemma event_step call w e ev :
  wf w ->
  events (store w) !! e = Some ev ->
  exists ev',
    events (store (commit (exec call) w)) !! e = Some ev' /\
    organizer ev' = organizer ev /\
    price ev' = price ev /\
    max_tickets ev' = max_tickets ev /\
    transferable ev' = transferable ev /\
    start_time ev' = start_time ev /\
    end_time ev' = end_time ev /\
    sold ev <= sold ev'.
Proof.
  intros [Hev _] He. unfold commit.
  destruct call as [ctx name pr mx tr st en descr|ctx e' p|ctx a'|ctx e']; simpl.
  - unfold bind.
    destruct (create_event ctx name pr mx tr st en descr w) as [[id w']|f] eqn:Hrun;
      simpl; [|exists ev; repeat split; done || lia].
    apply create_event_ok in Hrun as (-> & _ & _ & He' & _).
    exists ev. rewrite He', lookup_insert_ne; [repeat split; done || lia|].
    apply Hev in He. lia.
  - unfold bind.
    destruct (buy_ticket ctx e' p w) as [[k w']|f] eqn:Hrun;
      simpl; [|exists ev; repeat split; done || lia].
    apply buy_ticket_ok in Hrun as (ev0 & Hev0 & _ & _ & _ & _ & _ & _ & He' & _).
    rewrite He'. destruct (decide (e' = e)) as [->|Hne].
    + rewrite lookup_insert_eq. assert (ev0 = ev) as -> by congruence.
      exists (with_sold (sold ev + 1) ev). simpl. repeat split; done || lia.
    + rewrite lookup_insert_ne by done. exists ev. repeat split; done || lia.
  - destruct (use_ticket ctx a' w) as [[[] w']|f] eqn:Hrun;
      [|exists ev; repeat split; done || lia].
    apply use_ticket_ok in Hrun as (t0 & ev0 & _ & _ & _ & _ & _ & He' & _).
    rewrite He'. exists ev. repeat split; done || lia.
  - destruct (withdraw_sales ctx e' w) as [[[] w']|f] eqn:Hrun;
      [|exists ev; repeat split; done || lia].
    apply withdraw_sales_ok in Hrun as (ev0 & _ & _ & _ & -> & _).
    exists ev. repeat split; done || lia.
Qed.

(** X22.  Whatever calls follow, a stored ticket keeps its event, owner,
    number and purchase time, no later purchase overwrites it, and once used
    it stays used. *)
Theorem ticket_is_permanent cs : forall w a t,
  wf w ->
  tickets (store w) !! a = Some t ->
  exists t',
    tickets (store (run cs w)) !! a = Some t' /\
    event_id t' = event_id t /\
    owner t' = owner t /\
    ticket_number t' = ticket_number t /\
    purchase_time t' = purchase_time t /\
    (used t = true -> used t' = true).
Proof.
  induction cs as [|call cs IH]; intros w a t Hwf Ht; simpl.
  - by exists t.
  - destruct (ticket_step call w a t Hwf Ht) as (t1 & Ht1 & He & Ho & Hn & Hp & Hu).
    destruct (IH _ a t1 (events_wf_step call w Hwf) Ht1)
      as (t' & Ht' & He' & Ho' & Hn' & Hp' & Hu').
    exists t'. repeat split; try congruence. tauto.
Qed.

Lemma ticket_is_permanent_witness :
  exists t',
    tickets (store (run [BuyTicket (visitor 3%N) 0 (mkPayment 99%N 50);
                         UseTicket (visitor 1%N) 0] one_seat_left)) !! 0 = Some t' /\
    owner t' = 2%N /\ ticket_number t' = 0.
Proof.
  destruct (ticket_is_permanent
              [BuyTicket (visitor 3%N) 0 (mkPayment 99%N 50);
               UseTicket (visitor 1%N) 0]
              one_seat_left 0 (mkTicket 0 2%N 0 false 1000))
    as (t' & Ht' & _ & Ho & Hn & _).
  - apply events_wf_run, events_wf_start.
  - vm_compute. reflexivity.
  - by exists t'.
Defined.

(** X23.  Whatever calls follow, a stored event keeps its organizer, price,
    capacity, transferability and times, and the number of tickets it has
    sold never goes down. *)
Theorem event_terms_are_fixed cs : forall w e ev,
  wf w ->
  events (store w) !! e = Some ev ->
  exists ev',
    events (store (run cs w)) !! e = Some ev' /\
    organizer ev' = organizer ev /\
    price ev' = price ev /\
    max_tickets ev' = max_tickets ev /\
    transferable ev' = transferable ev /\
    start_time ev' = start_time ev /\
    end_time ev' = end_time ev /\
    sold ev <= sold ev'.
Proof.
  induction cs as [|call cs IH]; intros w e ev Hwf He; simpl.
  - exists ev. repeat split; done || lia.
  - destruct (event_step call w e ev Hwf He)
      as (ev1 & He1 & Ho & Hp & Hm & Ht & Hs & Hen & Hsold).
    destruct (IH _ e ev1 (events_wf_step call w Hwf) He1)
      as (ev' & He' & Ho' & Hp' & Hm' & Ht' & Hs' & Hen' & Hsold').
    exists ev'. repeat split; try congruence. lia.
Qed.

Lemma event_terms_are_fixed_witness :
  exists ev',
    events (store (run [BuyTicket (visitor 3%N) 0 (mkPayment 99%N 50)]
                     one_seat_left)) !! 0 = Some ev' /\
    price ev' = 50 /\ 1 <= sold ev'.
Proof.
  destruct (event_terms_are_fixed
              [BuyTicket (visitor 3%N) 0 (mkPayment 99%N 50)]
              one_seat_left 0 (mkEvent 1%N 50 2 1 false 5000 6000))
    as (ev' & He' & _ & Hp & _ & _ & _ & _ & Hs).
  - apply events_wf_run, events_wf_start.
  - vm_compute. reflexivity.
  - by exists ev'.
Defined.

Lemma event_sum_insert (f : Event -> Z) (m : gmap Z Event) e ev :
  map_sum (f <$> <[e := ev]> m) =
  map_sum (f <$> m) - default 0 (f <$> m !! e) + f ev.
Proof. by rewrite fmap_insert, map_sum_insert, lookup_fmap. Qed.

(** One call moves the counters and the revenue with the boxes. *)
Lemma booked_step call w :
  wf w ->
  booked (store w) ->
  let w' := commit (exec call) w in
  booked (store w') /\
  map_sum (revenue <$> events (store w')) =
    map_sum (revenue <$> events (store w)) + paid_in call w.
Proof.
  intros [Hev Htk] (Hsize & Hsold & Hnext). unfold commit, paid_in.
  destruct call as [ctx name pr mx tr st en descr|ctx e p|ctx a|ctx e]; simpl.
  - unfold bind.
    destruct (create_event ctx name pr mx tr st en descr w) as [[id w']|f] eqn:Hrun;
      simpl; [|split; [done | lia]].
    assert (Hfresh : events (store w) !! next_event_id (store w) = None).
    { destruct (events (store w) !! next_event_id (store w)) as [ev|] eqn:Hk;
        [|done]. apply Hev in Hk. lia. }
    unfold create_event in Hrun. exec_inv Hrun.
    unfold booked. simpl.
    rewrite !event_sum_insert, Hfresh, map_size_insert_None by done.
    unfold revenue. simpl. repeat split; lia.
  - unfold bind.
    destruct (buy_ticket ctx e p w) as [[k w']|f] eqn:Hrun;
      simpl; [|split; [done | lia]].
    assert (Hfresh : tickets (store w) !! asset_ctr w = None).
    { destruct (tickets (store w) !! asset_ctr w) as [t|] eqn:Ht; [|done].
      apply Htk in Ht. lia. }
    unfold buy_ticket in Hrun.
    exec_inv Hrun; unfold booked; simpl.
    all: rewrite !event_sum_insert.
    all: match goal with H : events _ !! _ = Some _ |- _ => rewrite H end.
    all: rewrite (map_size_insert_None k), (map_size_insert_Some e) by done.
    all: unfold revenue; simpl; repeat split; lia.
  - destruct (use_ticket ctx a w) as [[[] w']|f] eqn:Hrun; [|split; [done | lia]].
    unfold use_ticket in Hrun.
    exec_inv Hrun. unfold booked. simpl.
    rewrite map_size_insert_Some by done.
    repeat split; lia.
  - destruct (withdraw_sales ctx e w) as [[[] w']|f] eqn:Hrun; [|split; [done | lia]].
    apply withdraw_sales_ok in Hrun as (ev & _ & _ & _ & -> & _).
    split; [done | lia].
Qed.

Lemma booked_run cs : forall w,
  wf w ->
  booked (store w) ->
  booked (store (run cs w)) /\
  map_sum (revenue <$> events (store (run cs w))) =
    map_sum (revenue <$> events (store w)) + takings cs w.
Proof.
  induction cs as [|call cs IH]; intros w Hwf Hb; simpl.
  - split; [done | lia].
  - destruct (booked_step call w Hwf Hb) as [Hb1 Hr1].
    destruct (IH _ (events_wf_step call w Hwf) Hb1) as [Hb2 Hr2].
    split; [done | lia].
Qed.

(** X24.  After any sequence of calls from the empty registry,
    [total_tickets_sold] is the number of ticket boxes and the sum of [sold]
    over the events, [next_event_id] is the number of events, and the
    payments taken for tickets add up to the sum over the events of
    [price * sold], the revenue [withdraw_sales] computes. *)
Theorem registry_counters (cs : list Call) :
  let s := store (run cs start) in
  total_tickets_sold s = Z.of_nat (size (tickets s)) /\
  total_tickets_sold s = map_sum (sold <$> events s) /\
  next_event_id s = Z.of_nat (size (events s)) /\
  takings cs start = map_sum (revenue <$> events s).
Proof.
  assert (Hb0 : booked (store start)) by (repeat split; vm_compute; reflexivity).
  destruct (booked_run cs start events_wf_start Hb0)
    as ((Hsize & Hsold & Hnext) & Hrev).
  assert (map_sum (revenue <$> events (store start)) = 0) as Hz
    by (vm_compute; reflexivity).
  repeat split; try done; lia.
Qed.

(** X25.  [withdraw_sales] goes through exactly when the event exists, the
    caller is its organizer and [price * sold] is positive and fits
    [UInt64].  A missing event is reported first, then a caller who is not
    the organizer; a product beyond [UInt64] aborts the call. *)
Theorem withdraw_sales_exact ctx e w :
  (succeeds (withdraw_sales ctx e) w <->
     exists ev,
       events (store w) !! e = Some ev /\
       txn_sender ctx = organizer ev /\
       0 < price ev * sold ev <= MAX_UINT64) /\
  (events (store w) !! e = None ->
   withdraw_sales ctx e w = Abort (AssertFailed "Event not found")) /\
  (forall ev, events (store w) !! e = Some ev ->
     (txn_sender ctx <> organizer ev ->
      withdraw_sales ctx e w = Abort (AssertFailed "Only organizer")) /\
     (txn_sender ctx = organizer ev -> MAX_UINT64 < price ev * sold ev ->
      withdraw_sales ctx e w = Abort ArithPanic)).
Proof.
  split; [split|split].
  - intros ([] & w' & Hrun).
    apply withdraw_sales_ok in Hrun as (ev & Hev & Hs & Hrev & _).
    by exists ev.
  - intros (ev & Hev & Hs & Hpos & Hmax).
    unfold succeeds, withdraw_sales. unfold_machine. simpl.
    rewrite Hev. apply N.eqb_eq in Hs. rewrite Hs.
    apply Z.leb_le in Hmax. rewrite Hmax.
    apply Z.ltb_lt in Hpos. rewrite Hpos. by eexists _, _.
  - intros Hev. unfold withdraw_sales. unfold_machine. by rewrite Hev.
  - intros ev Hev. split.
    + intros Hs. unfold withdraw_sales. unfold_machine. simpl.
      rewrite Hev. apply N.eqb_neq in Hs. by rewrite Hs.
    + intros Hs Hbig. unfold withdraw_sales. unfold_machine. simpl.
      rewrite Hev. apply N.eqb_eq in Hs. rewrite Hs.
      apply Z.leb_gt in Hbig. by rewrite Hbig.
Qed.

End TicketingProofs.
